(** * generateArticles.js: the article generator of plateup-pro

    A shallow embedding of [server/scripts/generateArticles.js] and the
    properties of its slugs, its index and its runs.

    JavaScript strings are sequences of UTF-16 code units; they are modelled
    as lists of [N].  The file system is modelled by the places the script
    reads and writes: [source.json] and its directory, [articles.json] and
    its directory, and the articles directory with its files. *)

From Stdlib Require Import NArith ZArith Lia Bool.
From Stdlib Require Import Ascii String.
From stdpp Require Import base option list gmap.

Local Open Scope N_scope.
#[local] Set Warnings "-register-all".

(** ** JavaScript strings *)

Module JsString.

(** An ASCII literal of the source, as code units. *)
Definition str (s : string) : list N :=
  List.map N_of_ascii (list_ascii_of_string s).

Definition inRange (lo hi c : N) : bool := (lo <=? c) && (c <=? hi).

(** [String.prototype.toLowerCase], one code unit at a time.  The table
    is written out for the Basic Latin and Latin-1 Supplement blocks and
    for the five letters outside them whose lower case lies inside them
    (U+0130, U+0178, U+1E9E, U+212A, U+212B).  Every other code unit is
    sent by the Unicode tables to code units above U+00FF that are not
    white space; they are left as they are here. *)
Definition toLowerUnit (c : N) : list N :=
  if inRange 65 90 c then [c + 32]
  else if inRange 192 222 c && negb (c =? 215) then [c + 32]
  else if c =? 304 then [105; 775]
  else if c =? 376 then [255]
  else if c =? 7838 then [223]
  else if c =? 8490 then [107]
  else if c =? 8491 then [229]
  else [c].

Definition toLowerCase (s : list N) : list N :=
  List.concat (List.map toLowerUnit s).

(** The class [\w] of a regular expression without the [u] flag. *)
Definition wordChar (c : N) : bool :=
  inRange 97 122 c || inRange 65 90 c || inRange 48 57 c || (c =? 95).

(** The class [\s]: WhiteSpace and LineTerminator of ECMAScript.  It is
    also the set that [trim] strips. *)
Definition whiteSpace (c : N) : bool :=
  inRange 9 13 c || (c =? 32) || (c =? 160) || (c =? 5760)
  || inRange 8192 8202 c || (c =? 8232) || (c =? 8233) || (c =? 8239)
  || (c =? 8287) || (c =? 12288) || (c =? 65279).

Definition hyphen (c : N) : bool := c =? 45.

Fixpoint dropWhile (p : N -> bool) (s : list N) : list N :=
  match s with
  | [] => []
  | c :: s' => if p c then dropWhile p s' else s
  end.

Fixpoint takeWhile (p : N -> bool) (s : list N) : list N :=
  match s with
  | [] => []
  | c :: s' => if p c then c :: takeWhile p s' else []
  end.

(** [String.prototype.trim]. *)
Definition trimStart (s : list N) : list N := dropWhile whiteSpace s.
Definition trimEnd (s : list N) : list N :=
  List.rev (dropWhile whiteSpace (List.rev s)).
Definition trim (s : list N) : list N := trimEnd (trimStart s).

(** [String.prototype.slice(a, b)] for [0 <= a <= b]. *)
Definition slice (a b : nat) (s : list N) : list N :=
  firstn (b - a) (skipn a s).

(** The two shapes of regular expression the script uses: one character
    of a class, and a non-empty greedy run of a class. *)
Inductive Regex : Type :=
| ReClass (p : N -> bool)
| RePlus (p : N -> bool).

(** Length of the match of [re] that starts at the head of [s]. *)
Definition matchLen (re : Regex) (s : list N) : option nat :=
  match re, s with
  | _, [] => None
  | ReClass p, c :: _ => if p c then Some 1%nat else None
  | RePlus p, c :: s' =>
      if p c then Some (S (length (takeWhile p s'))) else None
  end.

(** [s.replace(re, r)] for a regular expression with the [g] flag: scan
    left to right; at a match emit [r] and jump over it, otherwise copy
    one code unit.  [skip] counts the code units of the current match
    that are still to be jumped over. *)
Fixpoint replaceFrom (re : Regex) (r : list N) (skip : nat) (s : list N)
  : list N :=
  match s with
  | [] => []
  | c :: s' =>
      match skip with
      | S k => replaceFrom re r k s'
      | O =>
          match matchLen re s with
          | Some n => r ++ replaceFrom re r (Nat.pred n) s'
          | None => c :: replaceFrom re r 0 s'
          end
      end
  end.

Definition replaceAll (re : Regex) (r : list N) (s : list N) : list N :=
  replaceFrom re r 0 s.

End JsString.

Import JsString.

(** ** The script *)

(** [slugify], lines 19-25.  Titles are strings, on which [toString] is
    the identity. *)
Definition slugify (s : list N) : list N :=
  replaceAll (RePlus hyphen) (str "-")
    (replaceAll (RePlus whiteSpace) (str "-")
      (trim
        (replaceAll
           (ReClass (fun c => negb (wordChar c || whiteSpace c || hyphen c)))
           (str "") (toLowerCase s)))).

(** [Number.prototype.toString(radix)] for an integer. *)
Definition digitChar (d : N) : N := if d <? 10 then 48 + d else 87 + d.

Fixpoint digitsFrom (fuel : nat) (radix n : N) (acc : list N) : list N :=
  match fuel with
  | O => acc
  | S k =>
      if n <? radix then digitChar n :: acc
      else digitsFrom k radix (n / radix) (digitChar (n mod radix) :: acc)
  end.

Definition numberToString (radix : N) (z : Z) : list N :=
  match z with
  | Z0 => str "0"
  | Zpos p => digitsFrom (N.size_nat (Npos p)) radix (Npos p) []
  | Zneg p => str "-" ++ digitsFrom (N.size_nat (Npos p)) radix (Npos p) []
  end.

(** [Array.prototype.join]. *)
Fixpoint join (sep : list N) (parts : list (list N)) : list N :=
  match parts with
  | [] => []
  | [p] => p
  | p :: rest => p ++ sep ++ join sep rest
  end.

(** [a || b] on strings: the empty string is falsy. *)
Definition orElse (a b : list N) : list N :=
  match a with [] => b | _ => a end.

(** *** Values read from and written to [articles.json] *)

(** Numbers are integers, as the script writes them.  A literal too
    large for a double, which [JSON.parse] reads as [Infinity], is outside
    the model. *)
Inductive JSON : Type :=
| JNull
| JBool (b : bool)
| JNum (z : Z)
| JStr (s : list N)
| JArr (l : list JSON)
| JObj (fields : list (list N * JSON)).

(** What the script can throw: the [TypeError] of reading a property of
    [null], and the errors of [fs.writeFileSync], named by their code. *)
Inductive Thrown : Type :=
| TypeError
| ENAMETOOLONG
| ENOENT.

Inductive Res (A : Type) : Type :=
| Ok (a : A)
| Throw (e : Thrown).
Arguments Ok {A} a.
Arguments Throw {A} e.

Fixpoint field (k : list N) (fields : list (list N * JSON)) : option JSON :=
  match fields with
  | [] => None
  | (k', v) :: rest => if decide (k' = k) then Some v else field k rest
  end.

(** [v.k] for a property name [k] that no prototype defines, as [list] and
    [slug] are: [None] is [undefined]; reading a property of [null]
    throws. *)
Definition getProp (v : JSON) (k : list N) : Res (option JSON) :=
  match v with
  | JNull => Throw TypeError
  | JObj fields => Ok (field k fields)
  | _ => Ok None
  end.

(** [v === s] for a string [s]. *)
Definition strictEqStr (v : option JSON) (s : list N) : bool :=
  match v with
  | Some (JStr s') => bool_decide (s' = s)
  | _ => false
  end.

(** [l.find(a => a.slug === slug)], line 146. *)
Fixpoint findSlug (slug : list N) (l : list JSON) : Res (option JSON) :=
  match l with
  | [] => Ok None
  | a :: l' =>
      match getProp a (str "slug") with
      | Throw e => Throw e
      | Ok v => if strictEqStr v slug then Ok (Some a) else findSlug slug l'
      end
  end.

(** *** Records *)

Record ArticleRecord : Type := mkRecord {
  rec_id : list N;
  rec_slug : list N;
  rec_title : list N;
  rec_category : list N;
  rec_excerpt : list N;
  rec_path : list N;
  rec_ts : Z
}.

(** The object literal of lines 172-180. *)
Definition recordJSON (r : ArticleRecord) : JSON :=
  JObj [ (str "id", JStr (rec_id r));
         (str "slug", JStr (rec_slug r));
         (str "title", JStr (rec_title r));
         (str "category", JStr (rec_category r));
         (str "excerpt", JStr (rec_excerpt r));
         (str "path", JStr (rec_path r));
         (str "ts", JNum (rec_ts r)) ].

Record Meta : Type := mkMeta {
  meta_id : list N;
  meta_title : list N;
  meta_slug : list N;
  meta_category : list N;
  meta_thumb : list N;
  meta_excerpt : list N;
  meta_canonical : list N;
  meta_ts : Z
}.

Record Recipe : Type := mkRecipe {
  intro : list N;
  ingredients : list (list N);
  steps : list (list N)
}.

(** [buildRecipe], lines 28-46. *)
Definition buildRecipe (title : list N) : Recipe :=
  {| intro := title ++ str " is a simple, budget-friendly recipe you'll love. Quick to prepare and packed with flavor.";
     ingredients :=
       [ str "1 cup rice or pasta (or as needed)";
         str "200g protein (chicken, tuna, beans)";
         str "1 tbsp olive oil";
         str "1 garlic clove, minced";
         str "Salt and pepper to taste";
         str "Optional: herbs, lemon, chili flakes" ];
     steps :=
       [ str "Prepare ingredients and season the protein.";
         str "Heat oil in a pan, saut" ++ [233] ++ str " garlic until fragrant.";
         str "Add protein and cook until done.";
         str "Add rice/pasta and combine, adjust seasoning.";
         str "Serve hot with a lemon wedge or fresh herbs." ] |}.

(** A literal of the page template; the caret stands for the double quote
    of the source. *)
Definition tpl (s : string) : list N :=
  List.map (fun c => if c =? 94 then 34 else c) (str s).

Definition li (s : list N) : list N := str "<li>" ++ s ++ str "</li>".

(** [articleHTML], lines 48-92; [year] is [new Date().getFullYear()]. *)
Definition articleHTML (year : Z) (meta : Meta) (recipeHtml : Recipe) : list N :=
  tpl "<!doctype html>
<html lang=^en^>
<head>
  <meta charset=^utf-8^>
  <meta name=^viewport^ content=^width=device-width,initial-scale=1^>
  <title>" ++ meta_title meta ++ tpl " - PlateUp.pro</title>
  <meta name=^description^ content=^" ++ orElse (meta_excerpt meta) (meta_title meta) ++ tpl "^>
  <link rel=^stylesheet^ href=^../css/style.css^>
</head>
<body>
  <header class=^site-header^>
    <a href=^../index.html^><img src=^../images/logo.png^ alt=^PlateUp.pro^ class=^logo^></a>
    <nav class=^main-nav^>
      <a href=^../index.html^>Home</a>
      <a href=^../about.html^>About</a>
      <a href=^../contact.html^>Contact</a>
    </nav>
  </header>

  <main class=^article-container^>
    <h1>" ++ meta_title meta ++ tpl "</h1>
    <p class=^article-meta^>Budget " ++ [8226] ++ str " Easy " ++ [8226] ++ tpl " Quick</p>
    <img src=^" ++ orElse (meta_thumb meta) (str "../images/logo.png") ++ tpl "^ alt=^" ++ meta_title meta ++ tpl "^ class=^article-thumb^>
    <div class=^article-content^>
      <p>" ++ intro recipeHtml ++ tpl "</p>
      <h4>Ingredients</h4>
      <ul>
        " ++ join [10] (List.map li (ingredients recipeHtml)) ++ tpl "
      </ul>
      <h4>Instructions</h4>
      <ol>
        " ++ join [10] (List.map li (steps recipeHtml)) ++ tpl "
      </ol>
      <p style=^color:#666;font-size:.95rem;margin-top:16px;^>Canonical: " ++ orElse (meta_canonical meta) (str "") ++ tpl "</p>
    </div>
  </main>

  <footer class=^site-footer^>
    &copy; " ++ numberToString 10 year ++ str " PlateUp.pro " ++ [8212] ++ tpl " Budget Recipes
  </footer>
</body>
</html>".

(** *** The configuration *)

(** A parsed [source.json] has the shape the script reads, which is the
    shape of the specification: a domain and categories, each with a name
    and items that are strings; every field may be absent, and an empty
    string counts as absent where the script writes [||].  A text that
    parses to a value of another shape ([null], a number for the
    categories, a category or an item that is [null]) is outside the
    model. *)

Record Category : Type := mkCategory {
  name : option (list N);
  items : option (list (list N))
}.

Record SourceConfig : Type := mkSource {
  domain : option (list N);
  categories : option (list Category)
}.

(** The built-in configuration of lines 100-114. *)
Definition defaultSrc : SourceConfig :=
  {| domain := Some (str "https://plateup.pro");
     categories := Some
       [ {| name := Some (str "Budget Cooking");
            items := Some [ str "Cheap Chicken Rice"; str "Beans Pasta";
                            str "Eggs on Toast"; str "Budget Chili";
                            str "Tuna Wrap" ] |} ] |}.

(** *** The world of a run *)

(** What a file holds, as [JSON.parse] sees it: text that it rejects, or
    the value it returns.  [JSON.stringify] writes a document that parses
    back to the value written. *)
Inductive Content (A : Type) : Type :=
| Malformed (text : list N)
| Document (a : A).
Arguments Malformed {A} text.
Arguments Document {A} a.

(** [dataDir] is the directory of [OUT_JSON], [artDir] is [OUT_ART_DIR],
    [sourceDir] is the directory of [SOURCE], which the script reads but
    never makes; [articles] maps a file name of [OUT_ART_DIR] to its
    text. *)
Record FileSystem : Type := mkFS {
  dataDir : bool;
  artDir : bool;
  sourceDir : bool;
  source : option (Content SourceConfig);
  outJson : option (Content JSON);
  articles : gmap (list N) (list N)
}.

(** The clock and the random generator: the [k]-th reading of a run. *)
Record Oracle : Type := mkOracle {
  dateNow : nat -> Z;
  fullYear : nat -> Z;
  mathRandom : nat -> list N
}.

Inductive Dir : Type :=
| DataDir
| ArticlesDir.

(** What a run does to the outside, in order. *)
Inductive Event : Type :=
| Mkdir (d : Dir)
| WriteSource (c : SourceConfig)
| WriteArticle (file : list N) (html : list N)
| WriteIndex (doc : JSON)
| LogCreatedDefault
| LogParseFailure
| LogSkipping (slug : list N)
| LogWrote (file : list N)
| LogWroteJSON (n : nat)
| LogDone.

Definition isFileWrite (e : Event) : bool :=
  match e with
  | WriteSource _ | WriteArticle _ _ | WriteIndex _ => true
  | _ => false
  end.

Definition isArticleWrite (e : Event) : bool :=
  match e with
  | WriteArticle _ _ => true
  | _ => false
  end.

(** How the process ends: status 0, [process.exit(1)], or an exception
    that nothing catches (which ends the process with status 1 too). *)
Inductive Exit : Type :=
| Completed
| Exited (code : Z)
| Uncaught (e : Thrown).

Definition exitStatus (x : Exit) : Z :=
  match x with
  | Completed => 0
  | Exited code => code
  | Uncaught _ => 1
  end.

(** The state the main loop works on. *)
Record Loop : Type := mkLoop {
  articlesList : list JSON;
  artFiles : gmap (list N) (list N);
  clock : nat;
  rng : nat;
  out : list Event
}.

(** The record of an article, from its [meta] (lines 172-180). *)
Definition recordOf (meta : Meta) : ArticleRecord :=
  {| rec_id := meta_id meta;
     rec_slug := meta_slug meta;
     rec_title := meta_title meta;
     rec_category := meta_category meta;
     rec_excerpt := meta_excerpt meta;
     rec_path := str "articles/" ++ meta_slug meta ++ str ".html";
     rec_ts := meta_ts meta |}.

(** [meta] of lines 154-163; [t0], [t1] are the two clock readings and
    [r] is [Math.random().toString(36)]. *)
Definition metaOf (dom catName title slug : list N) (t0 t1 : Z) (r : list N)
  : Meta :=
  {| meta_id := numberToString 36 t0 ++ slice 2 6 r;
     meta_title := title;
     meta_slug := slug;
     meta_category := catName;
     meta_thumb := str "";
     meta_excerpt := slice 0 140 (intro (buildRecipe title));
     meta_canonical :=
       match dom with
       | [] => str "/articles/" ++ slug ++ str ".html"
       | _ => dom ++ str "/articles/" ++ slug ++ str ".html"
       end;
     meta_ts := t1 |}.

(** [fs.writeFileSync(path, text, 'utf8')] writes the string as UTF-8: a
    surrogate that is not half of a pair is written as U+FFFD.
    [utf8Text s] is the text the file holds afterwards. *)
Definition highSurrogate (c : N) : bool := inRange 55296 56319 c.
Definition lowSurrogate (c : N) : bool := inRange 56320 57343 c.

Fixpoint utf8Text (s : list N) : list N :=
  match s with
  | [] => []
  | c :: s' =>
      if highSurrogate c then
        match s' with
        | d :: s'' =>
            if lowSurrogate d then c :: d :: utf8Text s''
            else 65533 :: utf8Text s'
        | [] => [65533]
        end
      else if lowSurrogate c then 65533 :: utf8Text s'
      else c :: utf8Text s'
  end.
Arguments utf8Text : simpl never.

(** The longest file name the file system takes, in bytes; the name of a
    page is ASCII, one byte for each code unit.  Writing a file with a
    longer name throws [ENAMETOOLONG]. *)
Definition nameMax : nat := 255.

Definition nameFits (file : list N) : bool := (length file <=? nameMax)%nat.

(** The body of the inner loop, lines 144-180.  The second component is
    the exception that left it, if any.  [WriteArticle] carries the text
    the file holds once written. *)
Definition processItem (o : Oracle) (dom catName : list N) (itemName : list N)
    (st : Loop) : Loop * option Thrown :=
  let title := itemName in
  let slug := slugify title in
  match findSlug slug (articlesList st) with
  | Throw e => (st, Some e)
  | Ok (Some _) =>
      ({| articlesList := articlesList st;
          artFiles := artFiles st;
          clock := clock st;
          rng := rng st;
          out := out st ++ [LogSkipping slug] |}, None)
  | Ok None =>
      let recipe := buildRecipe title in
      let meta :=
        metaOf dom catName title slug
          (dateNow o (clock st)) (dateNow o (S (clock st)))
          (mathRandom o (rng st)) in
      let html := articleHTML (fullYear o (S (S (clock st)))) meta recipe in
      let file := slug ++ str ".html" in
      if nameFits file then
        ({| articlesList := articlesList st ++ [recordJSON (recordOf meta)];
            artFiles := <[file := utf8Text html]> (artFiles st);
            clock := S (S (S (clock st)));
            rng := S (rng st);
            out := out st ++ [WriteArticle file (utf8Text html);
                              LogWrote file] |}, None)
      else
        ({| articlesList := articlesList st;
            artFiles := artFiles st;
            clock := S (S (S (clock st)));
            rng := S (rng st);
            out := out st |}, Some ENAMETOOLONG)
  end.

(** A [for ... of] loop: an exception leaves it with the state reached. *)
Fixpoint forOf {A : Type} (body : A -> Loop -> Loop * option Thrown)
    (xs : list A) (st : Loop) : Loop * option Thrown :=
  match xs with
  | [] => (st, None)
  | x :: xs' =>
      match body x st with
      | (st', None) => forOf body xs' st'
      | (st', Some e) => (st', Some e)
      end
  end.

(** The body of the outer loop, lines 142-183. *)
Definition processCategory (o : Oracle) (dom : list N) (cat : Category)
    (st : Loop) : Loop * option Thrown :=
  let catName := orElse (default [] (name cat)) (str "General") in
  forOf (processItem o dom catName) (default [] (items cat)) st.

(** Lines 130-138: the list of the previous index, [[]] when there is
    none or it cannot be read. *)
Definition loadExistingIndex (f : option (Content JSON)) : list JSON :=
  match f with
  | None => []
  | Some (Malformed _) => []
  | Some (Document old) =>
      match getProp old (str "list") with
      | Throw _ => []
      | Ok (Some (JArr l)) => l
      | Ok _ => []
      end
  end.

(** [ensureDir], lines 15-17: afterwards the directory exists; it is made
    when it was missing. *)
Definition existsDir (d : Dir) (fs : FileSystem) : bool :=
  match d with
  | DataDir => dataDir fs
  | ArticlesDir => artDir fs
  end.

Definition ensureDir (d : Dir) (fs : FileSystem) : FileSystem * list Event :=
  ({| dataDir := match d with DataDir => true | ArticlesDir => dataDir fs end;
      artDir := match d with ArticlesDir => true | DataDir => artDir fs end;
      sourceDir := sourceDir fs;
      source := source fs; outJson := outJson fs; articles := articles fs |},
   if existsDir d fs then [] else [Mkdir d]).

(** Lines 95-96: the two calls. *)
Definition ensureDirs (fs : FileSystem) : FileSystem * list Event :=
  let '(fs0, ev0) := ensureDir DataDir fs in
  let '(fs1, ev1) := ensureDir ArticlesDir fs0 in
  (fs1, ev0 ++ ev1).

(** Lines 98-117: the built-in configuration is written when
    [source.json] is missing; the write throws [ENOENT] when the directory
    of the file is missing too. *)
Definition initSource (fs : FileSystem)
  : FileSystem * list Event * option Thrown :=
  match source fs with
  | Some _ => (fs, [], None)
  | None =>
      if sourceDir fs then
        ({| dataDir := dataDir fs; artDir := artDir fs;
            sourceDir := sourceDir fs;
            source := Some (Document defaultSrc);
            outJson := outJson fs; articles := articles fs |},
         [WriteSource defaultSrc; LogCreatedDefault], None)
      else (fs, [], Some ENOENT)
  end.

(** The object of line 187. *)
Definition indexDoc (ts : Z) (l : list JSON) : JSON :=
  JObj [ (str "ts", JNum ts); (str "list", JArr l) ].

(** Lines 127-191: what the script does once [source.json] is parsed;
    [fs] and [ev] are the file system and the events at that point. *)
Definition generate (o : Oracle) (src : SourceConfig) (fs : FileSystem)
    (ev : list Event) : Exit * FileSystem * list Event :=
  let dom := default [] (domain src) in
  let cats := default [] (categories src) in
  let st0 :=
    {| articlesList := loadExistingIndex (outJson fs);
       artFiles := articles fs;
       clock := 0; rng := 0;
       out := ev |} in
  match forOf (processCategory o dom) cats st0 with
  | (st, Some e) =>
      (Uncaught e,
       {| dataDir := dataDir fs; artDir := artDir fs;
          sourceDir := sourceDir fs;
          source := source fs; outJson := outJson fs;
          articles := artFiles st |},
       out st)
  | (st, None) =>
      let outObj := indexDoc (dateNow o (clock st)) (articlesList st) in
      (Completed,
       {| dataDir := dataDir fs; artDir := artDir fs;
          sourceDir := sourceDir fs;
          source := source fs; outJson := Some (Document outObj);
          articles := artFiles st |},
       out st ++ [WriteIndex outObj;
                  LogWroteJSON (length (articlesList st)); LogDone])
  end.

(** The script, lines 94-191. *)
Definition main (o : Oracle) (fs : FileSystem)
  : Exit * FileSystem * list Event :=
  let '(fs1, ev1) := ensureDirs fs in
  match initSource fs1 with
  | (fs2, ev2, Some e) => (Uncaught e, fs2, ev1 ++ ev2)
  | (fs2, ev2, None) =>
      match source fs2 with
      | Some (Document src) => generate o src fs2 (ev1 ++ ev2)
      | _ => (Exited 1, fs2, ev1 ++ ev2 ++ [LogParseFailure])
      end
  end.

(** ** The wording of the specification *)

Definition asciiLetter (c : N) : bool := inRange 97 122 c || inRange 65 90 c.
Definition asciiDigit (c : N) : bool := inRange 48 57 c.

(** The letters among the first 256 code points. *)
Definition latinLetter (c : N) : bool :=
  asciiLetter c || (c =? 170) || (c =? 181) || (c =? 186)
  || (inRange 192 255 c && negb (c =? 215) && negb (c =? 247)).

(** What the second step keeps: letters, digits, underscores, white space
    and hyphens. *)
Definition kept (letter digit : N -> bool) (c : N) : bool :=
  letter c || digit c || (c =? 95) || whiteSpace c || (c =? 45).

(** The maximal runs of a string, each with whether its units satisfy [p]. *)
Fixpoint runs (p : N -> bool) (s : list N) : list (bool * list N) :=
  match s with
  | [] => []
  | c :: s' =>
      match runs p s' with
      | (b, run) :: rest =>
          if eqb b (p c) then (b, c :: run) :: rest
          else (p c, [c]) :: (b, run) :: rest
      | [] => [(p c, [c])]
      end
  end.

(** Each maximal run of [p] becomes one hyphen. *)
Definition collapseRuns (p : N -> bool) (s : list N) : list N :=
  List.concat
    (List.map (fun g : bool * list N => if g.1 then str "-" else g.2)
       (runs p s)).

(** The slug algorithm as the specification words it, over a notion of
    letter and of digit: lowercase; remove what is not a letter, a digit,
    an underscore, white space or a hyphen; trim; turn each run of white
    space into one hyphen; turn each run of hyphens into one hyphen. *)
Definition slugifySpec (letter digit : N -> bool) (title : list N) : list N :=
  collapseRuns hyphen
    (collapseRuns whiteSpace
       (trim (List.filter (kept letter digit) (toLowerCase title)))).

(** ** Notions the statements use *)

(** What a slug is made of. *)
Definition slugUnit (c : N) : bool :=
  inRange 97 122 c || asciiDigit c || (c =? 95) || hyphen c.

Fixpoint noHyphenRun (s : list N) : bool :=
  match s with
  | c :: s' =>
      match s' with
      | d :: _ => negb (hyphen c && hyphen d) && noHyphenRun s'
      | [] => true
      end
  | [] => true
  end.


(** The (category name, title) pairs the two loops visit, in order. *)
Definition itemsOf (cats : list Category) : list (list N * list N) :=
  List.flat_map
    (fun cat =>
       List.map (fun t => (orElse (default [] (name cat)) (str "General"), t))
         (default [] (items cat)))
    cats.

Definition configItems (src : SourceConfig) : list (list N * list N) :=
  itemsOf (default [] (categories src)).

(** [A'] is [A] plus the one item [t], in any category and at any place. *)
Definition PlusOneItem (A A' : SourceConfig) (t : list N) : Prop :=
  domain A' = domain A /\
  exists l1 l2 c,
    configItems A = l1 ++ l2 /\ configItems A' = l1 ++ (c, t) :: l2.

(** The loop state with further events. *)
Definition withOut (st : Loop) (ev : list Event) : Loop :=
  {| articlesList := articlesList st; artFiles := artFiles st;
     clock := clock st; rng := rng st; out := out st ++ ev |}.

(** The search of line 146 finds a record with this slug. *)
Definition Covered (slug : list N) (l : list JSON) : Prop :=
  exists a, findSlug slug l = Ok (Some a).

(** The two loops as one over the pairs. *)
Definition processAll (o : Oracle) (dom : list N)
    (its : list (list N * list N)) (st : Loop) : Loop * option Thrown :=
  forOf (fun it => processItem o dom it.1 it.2) its st.

(** A record as the loop body builds it from its title. *)
Definition Generated (r : ArticleRecord) : Prop :=
  rec_slug r = slugify (rec_title r) /\
  rec_excerpt r = slice 0 140 (intro (buildRecipe (rec_title r))) /\
  rec_path r = str "articles/" ++ rec_slug r ++ str ".html".

(** The slug an entry of the list carries, if it carries one. *)
Definition slugOf (e : JSON) : option (list N) :=
  match getProp e (str "slug") with
  | Ok (Some (JStr s)) => Some s
  | _ => None
  end.

(** No two entries of the list, at different places, carry the same slug. *)
Definition DistinctSlugs (l : list JSON) : Prop :=
  forall i j a b s,
    l !! i = Some a -> l !! j = Some b ->
    slugOf a = Some s -> slugOf b = Some s -> i = j.

(** The lists the script itself builds: generated records, no slug twice. *)
Definition IndexInv (l : list JSON) : Prop :=
  exists rs, l = List.map recordJSON rs /\
             NoDup (List.map rec_slug rs) /\
             Forall Generated rs.

Definition withSource (c : option (Content SourceConfig)) (fs : FileSystem)
  : FileSystem :=
  {| dataDir := dataDir fs; artDir := artDir fs; sourceDir := sourceDir fs;
     source := c; outJson := outJson fs; articles := articles fs |}.

Definition withIndex (c : option (Content JSON)) (fs : FileSystem)
  : FileSystem :=
  {| dataDir := dataDir fs; artDir := artDir fs; sourceDir := sourceDir fs;
     source := source fs; outJson := c; articles := articles fs |}.

(** The state the loops start from. *)
Definition startOf (fs : FileSystem) (ev : list Event) : Loop :=
  {| articlesList := loadExistingIndex (outJson fs); artFiles := articles fs;
     clock := 0; rng := 0; out := ev |}.

(** The file system a completed run leaves; [sd] tells whether the
    directory of [source.json] exists. *)
Definition finished (o : Oracle) (src : SourceConfig) (sd : bool) (st : Loop)
  : FileSystem :=
  {| dataDir := true; artDir := true; sourceDir := sd;
     source := Some (Document src);
     outJson :=
       Some (Document (indexDoc (dateNow o (clock st)) (articlesList st)));
     articles := artFiles st |}.

(** The file systems the script can find itself in: it starts without an
    index it can load, runs any number of times, and the configuration may
    be edited between runs. *)
Inductive Reachable : FileSystem -> Prop :=
| reach_fresh fs :
    loadExistingIndex (outJson fs) = [] -> Reachable fs
| reach_run o fs x fs' ev :
    Reachable fs -> main o fs = (x, fs', ev) -> Reachable fs'
| reach_edit c fs :
    Reachable fs -> Reachable (withSource c fs).

(** *** Sample inputs *)

Definition sampleOracle : Oracle :=
  {| dateNow := fun k => (1700000000000 + Z.of_nat k)%Z;
     fullYear := fun _ => 2023%Z;
     mathRandom := fun _ => str "0.4fzyo82mvyr" |}.

(** A checkout before the first run: the directory of [source.json] is
    there, the file and the output directories are not. *)
Definition emptyFS : FileSystem :=
  {| dataDir := false; artDir := false; sourceDir := true; source := None;
     outJson := None; articles := ∅ |}.

Definition oneCategory (nm : string) (its : list (list N)) : SourceConfig :=
  {| domain := Some (str "https://plateup.pro");
     categories := Some [ {| name := Some (str nm); items := Some its |} ] |}.

Definition fsWith (src : SourceConfig) : FileSystem :=
  withSource (Some (Document src)) emptyFS.

(** The result of a run, by parts. *)
Definition exitOf (r : Exit * FileSystem * list Event) : Exit := r.1.1.
Definition fsOf (r : Exit * FileSystem * list Event) : FileSystem := r.1.2.
Definition eventsOf (r : Exit * FileSystem * list Event) : list Event := r.2.

Definition cafe : list N := str "Caf" ++ [233].

Definition tunaTwice : SourceConfig :=
  {| domain := None;
     categories := Some
       [ {| name := Some (str "Lunch"); items := Some [str "Tuna Wrap"] |};
         {| name := Some (str "Dinner"); items := Some [str "Tuna Wrap"] |} ] |}.

Definition tunaWrap : SourceConfig :=
  oneCategory "Lunch" [str "Tuna Wrap"].

Definition tunaWrapAgain : SourceConfig :=
  oneCategory "Lunch" [str "Tuna Wrap"; str "tuna wrap"].

Definition tunaWrapAndSoup : SourceConfig :=
  oneCategory "Lunch" [str "Tuna Wrap"; str "Leek Soup"].

Definition noCategories : SourceConfig :=
  {| domain := None; categories := Some [] |}.

(** A site that has its directories, with an index that does not
    parse. *)
Definition corruptIndexFS : FileSystem :=
  {| dataDir := true; artDir := true; sourceDir := true;
     source := Some (Document tunaWrap);
     outJson := Some (Malformed (str "{ list: oops"));
     articles := ∅ |}.

(** ** Notions of the further properties *)

(** The name of the page of a slug in the articles directory, line 167. *)
Definition fileName (slug : list N) : list N := slug ++ str ".html".

(** [piece] occurs in [whole]. *)
Definition Contains (piece whole : list N) : Prop :=
  exists a b, whole = a ++ piece ++ b.

(** The heading of a page, line 70. *)
Definition heading (title : list N) : list N :=
  str "<h1>" ++ title ++ str "</h1>".

Definition isIndexWrite (e : Event) : bool :=
  match e with
  | WriteIndex _ => true
  | _ => false
  end.

Definition isSourceWrite (e : Event) : bool :=
  match e with
  | WriteSource _ => true
  | _ => false
  end.

Definition isMkdir (e : Event) : bool :=
  match e with
  | Mkdir _ => true
  | _ => false
  end.

(** The names of the article files a run writes, in order. *)
Definition writtenFiles (ev : list Event) : list (list N) :=
  List.flat_map
    (fun e => match e with WriteArticle f _ => [f] | _ => [] end) ev.

Definition isSkipNotice (e : Event) : bool :=
  match e with
  | LogSkipping _ => true
  | _ => false
  end.

(** What the loop body emits. *)
Definition isLoopEvent (e : Event) : bool :=
  match e with
  | LogSkipping _ | WriteArticle _ _ | LogWrote _ => true
  | _ => false
  end.

(** No entry of the list is [null]: reading [a.slug] throws on no entry. *)
Definition Readable (l : list JSON) : Prop := Forall (fun a => a <> JNull) l.

(** The code units that leave a letter, digit, underscore or hyphen in a
    slug: [inSlugAlphabet] without the white space. *)
Definition leavesMark (c : N) : bool :=
  wordChar c || (c =? 304) || (c =? 8490) || hyphen c.

(** The category and title a record was made for. *)
Definition itemOf (r : ArticleRecord) : list N * list N :=
  (rec_category r, rec_title r).

(** The index and the pages agree: the list holds generated records with
    distinct slugs, and the page of each is in the articles directory,
    with the record's title, as a file holds it, as its heading. *)
Definition PageFor (r : ArticleRecord) (files : gmap (list N) (list N))
  : Prop :=
  exists html,
    files !! fileName (rec_slug r) = Some html /\
    Contains (heading (utf8Text (rec_title r))) html.

Definition StoreInv (l : list JSON) (files : gmap (list N) (list N)) : Prop :=
  exists rs, l = List.map recordJSON rs /\
             NoDup (List.map rec_slug rs) /\
             Forall (fun r => Generated r /\ PageFor r files) rs.

(** The value of a digit of [numberToString], and of a string of them. *)
Definition digitValue (c : N) : N := if c <? 58 then c - 48 else c - 87.

Definition digitsValue (radix : N) (ds : list N) : N :=
  List.fold_left (fun acc c => acc * radix + digitValue c) ds 0.

(** A site that has its directories and a configuration. *)
Definition siteWith (src : SourceConfig) (index : option (Content JSON))
    (files : gmap (list N) (list N)) : FileSystem :=
  {| dataDir := true; artDir := true; sourceDir := true;
     source := Some (Document src); outJson := index; articles := files |}.

(** An index whose list holds [null] before anything else. *)
Definition nullIndexFS : FileSystem :=
  siteWith tunaWrap (Some (Document (indexDoc 0 [JNull]))) ∅.

(** An index whose list holds entries that are not records. *)
Definition junkIndexFS : FileSystem :=
  siteWith tunaWrap
    (Some (Document
             (indexDoc 0
                [JNum 5; JStr (str "tuna-wrap"); JBool true; JArr [JNull];
                 JObj []; JObj [(str "slug", JNum 7)]]))) ∅.

(** A title of 300 code units after a short one. *)
Definition longTitle : SourceConfig :=
  oneCategory "Lunch" [str "Tuna Wrap"; List.repeat 97 300].

Definition longTitleFS : FileSystem := siteWith longTitle None ∅.

(** A title with a surrogate that is not half of a pair. *)
Definition loneSurrogate : SourceConfig :=
  oneCategory "Lunch" [str "Caf" ++ [55357] ++ str " Bowl"].

(** A site with the record and the page of "Tuna Wrap", and a file that
    is not a page, before "Leek Soup" is added to the configuration. *)
Definition siteWithNotes : FileSystem :=
  siteWith tunaWrapAndSoup
    (Some (Document
             (indexDoc 0
                [recordJSON
                   (recordOf (metaOf [] (str "Lunch") (str "Tuna Wrap")
                                (str "tuna-wrap") 0 0 (str "0.4fzyo82mvyr")))])))
    (<[str "notes.txt" := str "keep"]>
       (<[str "tuna-wrap.html" := str "my page"]> ∅)).

(** Nothing at all: not even the directory of [source.json]. *)
Definition bareFS : FileSystem :=
  {| dataDir := false; artDir := false; sourceDir := false; source := None;
     outJson := None; articles := ∅ |}.

Definition tunaWrapRenamed : SourceConfig :=
  {| domain := Some (str "https://example.org");
     categories := Some
       [ {| name := Some (str "Dinner"); items := Some [str "TUNA  wrap!"] |} ] |}.

(** *** Tactics *)

(** Boolean tests on code units, as linear arithmetic. *)
Ltac units :=
  unfold wordChar, whiteSpace, hyphen, inRange in *;
  repeat (progress rewrite ?orb_true_iff, ?orb_false_iff, ?andb_true_iff,
            ?andb_false_iff, ?negb_true_iff, ?negb_false_iff, ?N.leb_le,
            ?N.leb_gt, ?N.eqb_eq, ?N.eqb_neq in *);
  lia.

(** The four ways of one turn of the loop: the slug is found, the page is
    written, its name is too long, the search throws. *)
Ltac turn t st :=
  unfold processItem;
  destruct (findSlug (slugify t) (articlesList st)) as [[?a|]|?e] eqn:?E;
  [ | destruct (nameFits (slugify t ++ str ".html")) eqn:?Efit | ].

(** * Properties *)

(** ** Strings and regular expressions *)

Section Replace.

Variables (p : N -> bool) (r : list N).

Lemma replaceFrom_skip re k s :
  replaceFrom re r k s = replaceFrom re r 0 (skipn k s).
Proof.
  revert k. induction s as [|c s IH]; intros [|k]; try reflexivity.
  cbn [replaceFrom skipn]. apply IH.
Qed.

Lemma skipn_takeWhile s :
  skipn (length (takeWhile p s)) s = dropWhile p s.
Proof.
  induction s as [|c s IH]; simpl; [reflexivity|].
  destruct (p c); simpl; [exact IH | reflexivity].
Qed.

Lemma replaceAll_class s :
  replaceAll (ReClass p) [] s = List.filter (fun c => negb (p c)) s.
Proof.
  unfold replaceAll. induction s as [|c s IH]; simpl; [reflexivity|].
  destruct (p c); simpl; rewrite IH; reflexivity.
Qed.

Lemma replaceAll_plus_cons c s :
  replaceAll (RePlus p) r (c :: s) =
  if p c then r ++ replaceAll (RePlus p) r (dropWhile p s)
  else c :: replaceAll (RePlus p) r s.
Proof.
  unfold replaceAll. simpl. destruct (p c); [|reflexivity].
  simpl. rewrite replaceFrom_skip, skipn_takeWhile. reflexivity.
Qed.

Lemma runs_head c s : exists run rest, runs p (c :: s) = (p c, run) :: rest.
Proof.
  simpl. destruct (runs p s) as [|[b run] rest]; [eauto|].
  destruct (eqb b (p c)) eqn:E; [|eauto].
  apply eqb_prop in E. subst b. eauto.
Qed.

Lemma runs_cons c s :
  runs p (c :: s) =
  match runs p s with
  | (b, run) :: rest =>
      if eqb b (p c) then (b, c :: run) :: rest
      else (p c, [c]) :: (b, run) :: rest
  | [] => [(p c, [c])]
  end.
Proof. reflexivity. Qed.

Lemma collapseRuns_cons c s :
  collapseRuns p (c :: s) =
  if p c then
    match s with
    | d :: _ => if p d then collapseRuns p s else str "-" ++ collapseRuns p s
    | [] => str "-"
    end
  else c :: collapseRuns p s.
Proof.
  destruct s as [|d s'].
  - unfold collapseRuns. simpl. destruct (p c); reflexivity.
  - destruct (runs_head d s') as (run & rest & E).
    unfold collapseRuns. rewrite (runs_cons c (d :: s')), E.
    destruct (p c) eqn:Ec, (p d) eqn:Ed; simpl; reflexivity.
Qed.

Lemma dropWhile_cons_true c s : p c = true -> dropWhile p (c :: s) = dropWhile p s.
Proof. intros E. simpl. rewrite E. reflexivity. Qed.

Lemma dropWhile_none s :
  Forall (fun c => p c = false) s -> dropWhile p s = s.
Proof. intros [|c s' E _]; simpl; [|rewrite E]; reflexivity. Qed.

End Replace.

Lemma replaceAll_plus_collapse p s :
  replaceAll (RePlus p) (str "-") s = collapseRuns p s.
Proof.
  induction s as [|c s IH]; [reflexivity|].
  rewrite replaceAll_plus_cons, collapseRuns_cons.
  destruct (p c) eqn:Ec; [|rewrite IH; reflexivity].
  destruct s as [|d s']; [reflexivity|].
  rewrite <- IH. simpl dropWhile.
  destruct (p d) eqn:Ed; [|reflexivity].
  rewrite replaceAll_plus_cons, Ed. reflexivity.
Qed.

Lemma wordChar_ascii c : wordChar c = asciiLetter c || asciiDigit c || (c =? 95).
Proof. reflexivity. Qed.

Lemma slugify_refines t : slugify t = slugifySpec asciiLetter asciiDigit t.
Proof.
  unfold slugify, slugifySpec.
  rewrite !replaceAll_plus_collapse, replaceAll_class.
  do 3 f_equal. apply filter_ext. intros c.
  unfold kept, hyphen. rewrite negb_involutive, wordChar_ascii. reflexivity.
Qed.

(** *** What a slug is made of *)

Lemma toLowerUnit_no_upper c :
  Forall (fun d => inRange 65 90 d = false) (toLowerUnit c).
Proof.
  unfold toLowerUnit.
  repeat match goal with
    | |- context [if ?b then _ else _] => destruct b eqn:?
    end;
  repeat constructor; units.
Qed.

Lemma toLowerCase_Forall (P : N -> Prop) t :
  (forall c, Forall P (toLowerUnit c)) -> Forall P (toLowerCase t).
Proof.
  intros H. unfold toLowerCase.
  induction t as [|c t IH]; simpl; [constructor|].
  apply Forall_app. split; [apply H | exact IH].
Qed.

Lemma toLowerUnit_slugUnit c : slugUnit c = true -> toLowerUnit c = [c].
Proof.
  intros H. unfold toLowerUnit, slugUnit, asciiDigit in *.
  repeat match goal with
    | |- context [if ?b then _ else _] => destruct b eqn:?
    end; try reflexivity; exfalso; units.
Qed.

Lemma toLowerCase_slug s :
  Forall (fun c => slugUnit c = true) s -> toLowerCase s = s.
Proof.
  unfold toLowerCase. induction 1 as [|c s Hc _ IH]; simpl; [reflexivity|].
  rewrite (toLowerUnit_slugUnit c Hc), IH. reflexivity.
Qed.

Lemma Forall_dropWhile (P : N -> Prop) p s :
  Forall P s -> Forall P (dropWhile p s).
Proof.
  induction 1 as [|c s Hc Hs IH]; simpl; [constructor|].
  destruct (p c); [exact IH | constructor; assumption].
Qed.

Lemma Forall_trim (P : N -> Prop) s : Forall P s -> Forall P (trim s).
Proof.
  intros H. unfold trim, trimEnd, trimStart.
  apply Forall_rev, Forall_dropWhile, Forall_rev, Forall_dropWhile, H.
Qed.

Lemma Forall_collapseRuns (P Q : N -> Prop) p s :
  Forall P s -> (forall c, P c -> p c = false -> Q c) -> Q 45 ->
  Forall Q (collapseRuns p s).
Proof.
  intros Hs HPQ Hh. induction Hs as [|c s Hc Hs IH]; [constructor|].
  rewrite collapseRuns_cons. destruct (p c) eqn:Ec.
  - destruct s as [|d s']; [repeat constructor; exact Hh|].
    destruct (p d); [exact IH | constructor; [exact Hh | exact IH]].
  - constructor; [apply HPQ; assumption | exact IH].
Qed.

Lemma collapseRuns_none p s :
  Forall (fun c => p c = false) s -> collapseRuns p s = s.
Proof.
  induction 1 as [|c s Hc _ IH]; [reflexivity|].
  rewrite collapseRuns_cons, Hc, IH. reflexivity.
Qed.

Lemma noHyphenRun_cons c s :
  noHyphenRun (c :: s) =
  match s with
  | d :: _ => negb (hyphen c && hyphen d)
  | [] => true
  end && noHyphenRun s.
Proof. destruct s; reflexivity. Qed.

Lemma noHyphenRun_collapse s : noHyphenRun (collapseRuns hyphen s) = true.
Proof.
  induction s as [|c s IH]; [reflexivity|].
  rewrite collapseRuns_cons. destruct (hyphen c) eqn:Ec.
  - destruct s as [|d s']; [reflexivity|].
    destruct (hyphen d) eqn:Ed; [exact IH|].
    rewrite collapseRuns_cons, Ed in IH |- *.
    change (str "-" ++ d :: collapseRuns hyphen s')
      with (45 :: d :: collapseRuns hyphen s').
    rewrite (noHyphenRun_cons 45), Ed, andb_false_r. exact IH.
  - rewrite noHyphenRun_cons, IH, Ec.
    destruct (collapseRuns hyphen s); reflexivity.
Qed.

Lemma collapse_hyphen_fixed s :
  noHyphenRun s = true -> collapseRuns hyphen s = s.
Proof.
  induction s as [|c s IH]; [reflexivity|].
  intros H. rewrite collapseRuns_cons.
  rewrite noHyphenRun_cons in H. apply andb_true_iff in H as [Hcd Hs].
  rewrite (IH Hs). destruct (hyphen c) eqn:Ec; [|reflexivity].
  assert (c = 45) as -> by (apply N.eqb_eq, Ec).
  destruct s as [|d s']; [reflexivity|].
  apply negb_true_iff in Hcd. simpl in Hcd. rewrite Hcd. reflexivity.
Qed.

Lemma filter_all {A} (f : A -> bool) (l : list A) :
  Forall (fun x => f x = true) l -> List.filter f l = l.
Proof.
  induction 1 as [|x l Hx _ IH]; simpl; [reflexivity|].
  rewrite Hx, IH. reflexivity.
Qed.


Lemma trim_none s : Forall (fun c => whiteSpace c = false) s -> trim s = s.
Proof.
  intros H. unfold trim, trimEnd, trimStart.
  rewrite (dropWhile_none _ s H).
  rewrite dropWhile_none by (apply Forall_rev, H).
  apply rev_involutive.
Qed.

(** After the first replacement only slug units and white space are left. *)
Lemma filtered_units t :
  Forall (fun c => slugUnit c = true \/ whiteSpace c = true)
    (List.filter (kept asciiLetter asciiDigit) (toLowerCase t)).
Proof.
  apply List.Forall_forall. intros c Hc. apply filter_In in Hc as [Hin Hk].
  assert (Hup : inRange 65 90 c = false).
  { pose proof (toLowerCase_Forall _ t toLowerUnit_no_upper) as F.
    rewrite List.Forall_forall in F. apply F, Hin. }
  destruct (whiteSpace c) eqn:Ew; [right; reflexivity|left].
  unfold kept, slugUnit, asciiLetter, asciiDigit in *. units.
Qed.

Lemma slugify_units t : Forall (fun c => slugUnit c = true) (slugify t).
Proof.
  rewrite slugify_refines. unfold slugifySpec.
  eapply Forall_collapseRuns with (P := fun c => slugUnit c = true);
    [|intros c H _; exact H|reflexivity].
  eapply Forall_collapseRuns; [apply Forall_trim, filtered_units| |reflexivity].
  intros c [H|H] E; [exact H | congruence].
Qed.

Lemma slugify_noHyphenRun t : noHyphenRun (slugify t) = true.
Proof. rewrite slugify_refines. apply noHyphenRun_collapse. Qed.

Lemma slugUnit_kept c :
  slugUnit c = true -> kept asciiLetter asciiDigit c = true.
Proof.
  intros H. unfold kept, slugUnit, asciiLetter, asciiDigit in *. units.
Qed.

Lemma slugUnit_not_space c : slugUnit c = true -> whiteSpace c = false.
Proof.
  intros H. unfold slugUnit, asciiDigit in H.
  destruct (whiteSpace c) eqn:E; [exfalso; units | reflexivity].
Qed.

Lemma slugify_fixed s :
  Forall (fun c => slugUnit c = true) s -> noHyphenRun s = true ->
  slugify s = s.
Proof.
  intros Hu Hr. rewrite slugify_refines. unfold slugifySpec.
  rewrite toLowerCase_slug by exact Hu.
  rewrite filter_all by (eapply Forall_impl; [exact Hu | apply slugUnit_kept]).
  assert (Hs : Forall (fun c => whiteSpace c = false) s)
    by (eapply Forall_impl; [exact Hu | apply slugUnit_not_space]).
  rewrite trim_none by exact Hs.
  rewrite (collapseRuns_none whiteSpace) by exact Hs.
  apply collapse_hyphen_fixed, Hr.
Qed.

Lemma slugify_idem t : slugify (slugify t) = slugify t.
Proof. apply slugify_fixed; [apply slugify_units | apply slugify_noHyphenRun]. Qed.



(** ** The search for a slug *)

Lemma findSlug_record s r l :
  findSlug s (recordJSON r :: l) =
  if bool_decide (rec_slug r = s) then Ok (Some (recordJSON r))
  else findSlug s l.
Proof. reflexivity. Qed.

Lemma findSlug_app_found s a l l' :
  findSlug s l = Ok (Some a) -> findSlug s (l ++ l') = Ok (Some a).
Proof.
  induction l as [|x l IH]; simpl; [discriminate|].
  destruct (getProp x (str "slug")) as [v|e]; [|discriminate].
  destruct (strictEqStr v s); [trivial | exact IH].
Qed.

Lemma findSlug_app_none s l l' :
  findSlug s l = Ok None -> findSlug s (l ++ l') = findSlug s l'.
Proof.
  induction l as [|x l IH]; simpl; [reflexivity|].
  destruct (getProp x (str "slug")) as [v|e]; [|discriminate].
  destruct (strictEqStr v s); [discriminate | exact IH].
Qed.

Lemma Covered_app s l l' : Covered s l -> Covered s (l ++ l').
Proof. intros [a H]. exists a. apply findSlug_app_found, H. Qed.

Lemma findSlug_records s rs :
  findSlug s (List.map recordJSON rs) =
  match List.find (fun r => bool_decide (rec_slug r = s)) rs with
  | Some r => Ok (Some (recordJSON r))
  | None => Ok None
  end.
Proof.
  induction rs as [|r rs IH]; [reflexivity|].
  cbn [List.map List.find]. rewrite findSlug_record.
  destruct (bool_decide (rec_slug r = s)); [reflexivity | exact IH].
Qed.

Lemma findSlug_records_None s rs :
  findSlug s (List.map recordJSON rs) = Ok None ->
  ~ In s (List.map rec_slug rs).
Proof.
  rewrite findSlug_records.
  destruct (List.find _ rs) as [r|] eqn:E; [discriminate|].
  intros _ Hin. apply in_map_iff in Hin as (r & Hr & Hin).
  apply (find_none _ _ E) in Hin. apply bool_decide_eq_false in Hin.
  contradiction.
Qed.

Lemma findSlug_records_Some s rs :
  In s (List.map rec_slug rs) -> Covered s (List.map recordJSON rs).
Proof.
  intros Hin. unfold Covered. rewrite findSlug_records.
  destruct (List.find _ rs) as [r|] eqn:E; [eauto|].
  apply in_map_iff in Hin as (r & Hr & Hin).
  apply (find_none _ _ E) in Hin. apply bool_decide_eq_false in Hin.
  contradiction.
Qed.

(** ** The loops *)

Lemma withOut_nil st : withOut st [] = st.
Proof. destruct st. unfold withOut. simpl. rewrite app_nil_r. reflexivity. Qed.

Lemma withOut_app st ev ev' : withOut (withOut st ev) ev' = withOut st (ev ++ ev').
Proof. unfold withOut. simpl. rewrite app_assoc. reflexivity. Qed.

Section Loops.

Context {A : Type} (body : A -> Loop -> Loop * option Thrown).

Lemma forOf_app xs ys st :
  forOf body (xs ++ ys) st =
  match forOf body xs st with
  | (st', None) => forOf body ys st'
  | (st', Some e) => (st', Some e)
  end.
Proof.
  revert st. induction xs as [|x xs IH]; intros st; simpl; [reflexivity|].
  destruct (body x st) as [st' [e|]]; [reflexivity | apply IH].
Qed.

Lemma forOf_map {B : Type} (f : B -> A) xs st :
  forOf body (List.map f xs) st = forOf (fun x => body (f x)) xs st.
Proof.
  revert st. induction xs as [|x xs IH]; intros st; simpl; [reflexivity|].
  destruct (body (f x) st) as [st' [e|]]; [reflexivity | apply IH].
Qed.

Lemma forOf_cons x xs st :
  forOf body (x :: xs) st =
  match body x st with
  | (st', None) => forOf body xs st'
  | (st', Some e) => (st', Some e)
  end.
Proof. reflexivity. Qed.

(** A property of the state that every turn keeps holds at the end. *)
Lemma forOf_invariant (I : Loop -> Prop) xs st st' r :
  (forall x s s' r', I s -> body x s = (s', r') -> I s') ->
  I st -> forOf body xs st = (st', r) -> I st'.
Proof.
  intros Hstep. revert st. induction xs as [|x xs IH]; intros st Hst; simpl.
  - intros [= <- <-]. exact Hst.
  - destruct (body x st) as [s1 [e|]] eqn:E.
    + intros [= <- <-]. eapply Hstep; eassumption.
    + apply IH. eapply Hstep; eassumption.
Qed.

End Loops.

Lemma processCategory_items o dom cat st :
  processCategory o dom cat st = processAll o dom (itemsOf [cat]) st.
Proof.
  unfold processCategory, processAll, itemsOf. simpl. rewrite app_nil_r.
  rewrite forOf_map. reflexivity.
Qed.

Lemma itemsOf_cons cat cats : itemsOf (cat :: cats) = itemsOf [cat] ++ itemsOf cats.
Proof. unfold itemsOf. simpl. rewrite app_nil_r. reflexivity. Qed.

(** The nested loops visit the pairs of [itemsOf] in order. *)
Lemma forOf_categories o dom cats st :
  forOf (processCategory o dom) cats st = processAll o dom (itemsOf cats) st.
Proof.
  revert st. induction cats as [|cat cats IH]; intros st; [reflexivity|].
  rewrite itemsOf_cons, forOf_cons, processCategory_items.
  unfold processAll. rewrite forOf_app.
  destruct (forOf _ (itemsOf [cat]) st) as [st' [e|]]; [reflexivity|].
  apply IH.
Qed.

(** *** One turn *)

Lemma processItem_skip o dom c t st a :
  findSlug (slugify t) (articlesList st) = Ok (Some a) ->
  processItem o dom c t st = (withOut st [LogSkipping (slugify t)], None).
Proof. intros H. unfold processItem. rewrite H. reflexivity. Qed.

Lemma processItem_throw o dom c t st e :
  findSlug (slugify t) (articlesList st) = Throw e ->
  processItem o dom c t st = (st, Some e).
Proof. intros H. unfold processItem. rewrite H. reflexivity. Qed.

Lemma processItem_new o dom c t st :
  findSlug (slugify t) (articlesList st) = Ok None ->
  nameFits (slugify t ++ str ".html") = true ->
  processItem o dom c t st =
  let meta := metaOf dom c t (slugify t) (dateNow o (clock st))
                (dateNow o (S (clock st))) (mathRandom o (rng st)) in
  let html :=
    utf8Text (articleHTML (fullYear o (S (S (clock st)))) meta
                (buildRecipe t)) in
  ({| articlesList := articlesList st ++ [recordJSON (recordOf meta)];
      artFiles := <[slugify t ++ str ".html" := html]> (artFiles st);
      clock := S (S (S (clock st)));
      rng := S (rng st);
      out := out st ++ [WriteArticle (slugify t ++ str ".html") html;
                        LogWrote (slugify t ++ str ".html")] |}, None).
Proof. intros H Hfit. unfold processItem. rewrite H, Hfit. reflexivity. Qed.

Lemma processItem_long o dom c t st :
  findSlug (slugify t) (articlesList st) = Ok None ->
  nameFits (slugify t ++ str ".html") = false ->
  processItem o dom c t st =
  ({| articlesList := articlesList st; artFiles := artFiles st;
      clock := S (S (S (clock st))); rng := S (rng st); out := out st |},
   Some ENAMETOOLONG).
Proof. intros H Hfit. unfold processItem. rewrite H, Hfit. reflexivity. Qed.

Lemma recordOf_generated dom c t t0 t1 r :
  Generated (recordOf (metaOf dom c t (slugify t) t0 t1 r)) /\
  rec_title (recordOf (metaOf dom c t (slugify t) t0 t1 r)) = t /\
  rec_category (recordOf (metaOf dom c t (slugify t) t0 t1 r)) = c.
Proof. repeat split. Qed.

(** One turn only ever appends to the list. *)
Lemma processItem_grows o dom c t st st' r :
  processItem o dom c t st = (st', r) ->
  exists l, articlesList st' = articlesList st ++ l.
Proof.
  turn t st; intros [= <- <-]; simpl; eexists; try reflexivity.
  all: symmetry; apply app_nil_r.
Qed.

(** After a turn that does not throw, the slug of its title is found. *)
Lemma processItem_covers o dom c t st st' :
  processItem o dom c t st = (st', None) ->
  Covered (slugify t) (articlesList st').
Proof.
  turn t st; intros [= <-]; simpl.
  - exists a. exact E.
  - eexists. rewrite (findSlug_app_none _ _ _ E). simpl.
    rewrite bool_decide_eq_true_2 by reflexivity. reflexivity.
Qed.

Lemma processAll_grows o dom its st st' r :
  processAll o dom its st = (st', r) ->
  exists l, articlesList st' = articlesList st ++ l.
Proof.
  unfold processAll. intros H.
  revert H. apply (forOf_invariant _ (fun s => exists l, articlesList s = articlesList st ++ l)).
  - intros [c t] s s' r' [l Hl] Hs. simpl in Hs.
    apply processItem_grows in Hs as [l' Hl']. exists (l ++ l').
    rewrite Hl', Hl, app_assoc. reflexivity.
  - exists []. symmetry. apply app_nil_r.
Qed.

(** After a run of the loop that does not throw, the slug of every title
    visited is found in the list. *)
Lemma processAll_covers o dom its st st' :
  processAll o dom its st = (st', None) ->
  Forall (fun it => Covered (slugify it.2) (articlesList st')) its.
Proof.
  revert st. induction its as [|[c t] its IH]; intros st; [constructor|].
  unfold processAll. simpl.
  destruct (processItem o dom c t st) as [s1 [e|]] eqn:E; [discriminate|].
  intros H. constructor; [|apply (IH s1), H].
  apply processAll_grows in H as [l ->].
  apply Covered_app. eapply processItem_covers, E.
Qed.

(** When every slug is found already, the loop only logs. *)
Lemma processAll_covered o dom its st :
  Forall (fun it => Covered (slugify it.2) (articlesList st)) its ->
  processAll o dom its st =
  (withOut st (List.map (fun it => LogSkipping (slugify it.2)) its), None).
Proof.
  revert st. induction its as [|[c t] its IH]; intros st H.
  - simpl. rewrite withOut_nil. reflexivity.
  - inversion H as [|? ? [a Ha] Hrest]; subst.
    unfold processAll. simpl. simpl in Ha.
    rewrite (processItem_skip _ _ _ _ _ a Ha).
    fold (processAll o dom its (withOut st [LogSkipping (slugify t)])).
    rewrite IH by exact Hrest. rewrite withOut_app. reflexivity.
Qed.

(** *** The invariant of the list *)

Lemma IndexInv_nil : IndexInv [].
Proof. exists []. repeat split; constructor. Qed.

Lemma processItem_IndexInv o dom c t st st' r :
  IndexInv (articlesList st) -> processItem o dom c t st = (st', r) ->
  IndexInv (articlesList st').
Proof.
  intros Hinv. turn t st; intros [= <- <-]; simpl; try exact Hinv.
  destruct Hinv as (rs & Hl & Hnd & Hgen).
  eexists (rs ++ [_]). split; [|split].
  - rewrite map_app, Hl. reflexivity.
  - rewrite map_app. simpl. apply NoDup_app.
    rewrite Hl in E. apply findSlug_records_None in E.
    split; [exact Hnd|]. split.
    + intros x Hx ->%list_elem_of_singleton. apply E, list_elem_of_In, Hx.
    + apply NoDup_singleton.
  - apply Forall_app. split; [exact Hgen|]. constructor; [|constructor].
    apply recordOf_generated.
Qed.

Lemma processAll_IndexInv o dom its st st' r :
  IndexInv (articlesList st) -> processAll o dom its st = (st', r) ->
  IndexInv (articlesList st').
Proof.
  unfold processAll.
  apply (forOf_invariant _ (fun s => IndexInv (articlesList s))).
  intros [c t] s s' r' Hs. apply processItem_IndexInv, Hs.
Qed.

(** ** The script as a whole *)

Lemma loadExistingIndex_indexDoc ts l : loadExistingIndex (Some (Document (indexDoc ts l))) = l.
Proof. reflexivity. Qed.

Lemma generate_eq o src fs ev :
  generate o src fs ev =
  match processAll o (default [] (domain src)) (configItems src)
          (startOf fs ev) with
  | (st, Some e) =>
      (Uncaught e,
       {| dataDir := dataDir fs; artDir := artDir fs;
          sourceDir := sourceDir fs; source := source fs;
          outJson := outJson fs; articles := artFiles st |},
       out st)
  | (st, None) =>
      (Completed,
       {| dataDir := dataDir fs; artDir := artDir fs;
          sourceDir := sourceDir fs; source := source fs;
          outJson :=
            Some (Document
                    (indexDoc (dateNow o (clock st)) (articlesList st)));
          articles := artFiles st |},
       out st ++ [WriteIndex
                    (indexDoc (dateNow o (clock st)) (articlesList st));
                  LogWroteJSON (length (articlesList st)); LogDone])
  end.
Proof.
  unfold generate, configItems. rewrite forOf_categories. reflexivity.
Qed.

Lemma main_malformed o fs text :
  source fs = Some (Malformed text) ->
  main o fs =
  (Exited 1, (ensureDirs fs).1, (ensureDirs fs).2 ++ [LogParseFailure]).
Proof.
  intros H. unfold main, initSource. simpl. rewrite H. reflexivity.
Qed.

Lemma main_document o fs src :
  source fs = Some (Document src) ->
  main o fs = generate o src (ensureDirs fs).1 (ensureDirs fs).2.
Proof.
  intros H. unfold main, initSource. simpl. rewrite H. simpl.
  rewrite app_nil_r. reflexivity.
Qed.

Lemma main_missing o fs :
  source fs = None -> sourceDir fs = true ->
  main o fs =
  generate o defaultSrc
    (withSource (Some (Document defaultSrc)) (ensureDirs fs).1)
    ((ensureDirs fs).2 ++ [WriteSource defaultSrc; LogCreatedDefault]).
Proof.
  intros H Hd. unfold main, initSource. simpl. rewrite H, Hd. reflexivity.
Qed.

(** Neither [source.json] nor its directory: the write of line 115
    throws. *)
Lemma main_no_directory o fs :
  source fs = None -> sourceDir fs = false ->
  main o fs = (Uncaught ENOENT, (ensureDirs fs).1, (ensureDirs fs).2).
Proof.
  intros H Hd. unfold main, initSource. simpl. rewrite H, Hd.
  rewrite app_nil_r. reflexivity.
Qed.

(** A run that completes, from its parts: the configuration it used, the
    events before the loops and the state after them. *)
Lemma main_completed o fs fs' ev :
  main o fs = (Completed, fs', ev) ->
  exists src ev0 st,
    (source fs = Some (Document src) \/ source fs = None /\ src = defaultSrc) /\
    processAll o (default [] (domain src)) (configItems src) (startOf fs ev0)
    = (st, None) /\
    fs' = finished o src (sourceDir fs) st /\
    ev = out st ++ [WriteIndex
                      (indexDoc (dateNow o (clock st)) (articlesList st));
                    LogWroteJSON (length (articlesList st)); LogDone].
Proof.
  destruct (source fs) as [[text|src]|] eqn:Hs.
  - rewrite (main_malformed _ _ _ Hs). discriminate.
  - rewrite (main_document _ _ _ Hs), generate_eq.
    change (startOf (ensureDirs fs).1 (ensureDirs fs).2)
      with (startOf fs (ensureDirs fs).2).
    destruct (processAll _ _ _ _) as [st [e|]] eqn:E; [discriminate|].
    intros [= <- <-]. exists src, (ensureDirs fs).2, st.
    repeat split; auto. unfold finished. simpl. rewrite Hs. reflexivity.
  - destruct (sourceDir fs) eqn:Hd;
      [|rewrite (main_no_directory _ _ Hs Hd); discriminate].
    rewrite (main_missing _ _ Hs Hd), generate_eq.
    match goal with |- context [startOf ?f ?e] =>
      change (startOf f e) with (startOf fs e) end.
    destruct (processAll _ _ _ _) as [st [e|]] eqn:E; [discriminate|].
    intros [= <- <-]. eexists defaultSrc, _, st.
    repeat split; eauto. unfold finished. simpl. rewrite Hd. reflexivity.
Qed.

(** A run on what a completed run left. *)
Lemma main_finished o o' src sd st :
  main o' (finished o src sd st) =
  generate o' src (finished o src sd st) [].
Proof. reflexivity. Qed.

Lemma main_finished_edited o o' src c sd st :
  main o' (withSource (Some (Document c)) (finished o src sd st)) =
  generate o' c (finished o c sd st) [].
Proof. reflexivity. Qed.

(** Whatever a run does, it keeps the invariant of the list. *)
Lemma main_IndexInv o fs x fs' ev :
  IndexInv (loadExistingIndex (outJson fs)) -> main o fs = (x, fs', ev) ->
  IndexInv (loadExistingIndex (outJson fs')).
Proof.
  intros Hinv. destruct (source fs) as [[text|src]|] eqn:Hs.
  - rewrite (main_malformed _ _ _ Hs). intros [= <- <- <-]. exact Hinv.
  - rewrite (main_document _ _ _ Hs), generate_eq.
    destruct (processAll _ _ _ _) as [st [e|]] eqn:Hloop;
      intros [= <- <- <-]; [exact Hinv|].
    eapply processAll_IndexInv; [|exact Hloop]. exact Hinv.
  - destruct (sourceDir fs) eqn:Hd;
      [|rewrite (main_no_directory _ _ Hs Hd); intros [= <- <- <-]; exact Hinv].
    rewrite (main_missing _ _ Hs Hd), generate_eq.
    destruct (processAll _ _ _ _) as [st [e|]] eqn:Hloop;
      intros [= <- <- <-]; [exact Hinv|].
    eapply processAll_IndexInv; [|exact Hloop]. exact Hinv.
Qed.

Lemma reachable_IndexInv fs : Reachable fs -> IndexInv (loadExistingIndex (outJson fs)).
Proof.
  induction 1 as [fs H|o fs x fs' ev _ IH Hrun|c fs _ IH].
  - rewrite H. apply IndexInv_nil.
  - eapply main_IndexInv; eassumption.
  - exact IH.
Qed.

(** *** Distinct slugs *)

Lemma DistinctSlugs_nil : DistinctSlugs [].
Proof. intros i j a b s Hi. rewrite lookup_nil in Hi. discriminate. Qed.

Lemma slugOf_recordJSON r : slugOf (recordJSON r) = Some (rec_slug r).
Proof. reflexivity. Qed.

(** The search finds the first entry that carries the slug. *)
Lemma findSlug_None_slugOf s l i a :
  findSlug s l = Ok None -> l !! i = Some a -> slugOf a <> Some s.
Proof.
  revert i. induction l as [|x l IH]; intros i; [rewrite lookup_nil; discriminate|].
  simpl. unfold slugOf.
  destruct (getProp x (str "slug")) as [v|e] eqn:Ex; [|discriminate].
  destruct (strictEqStr v s) eqn:Ev; [discriminate|].
  intros Hnone. destruct i as [|i]; simpl.
  - intros [= <-]. rewrite Ex.
    destruct v as [[| | |s'| |]|]; try discriminate.
    simpl in Ev. apply bool_decide_eq_false in Ev. congruence.
  - intros Hi. apply (IH i Hnone Hi).
Qed.

Lemma DistinctSlugs_snoc l x s :
  DistinctSlugs l -> findSlug s l = Ok None -> slugOf x = Some s ->
  DistinctSlugs (l ++ [x]).
Proof.
  intros Hd Hnone Hx i j a b s' Hi Hj Ha Hb.
  destruct (decide (i < length l)%nat) as [Hil|Hil];
    destruct (decide (j < length l)%nat) as [Hjl|Hjl].
  - rewrite lookup_app_l in Hi, Hj by assumption. eapply Hd; eassumption.
  - rewrite lookup_app_l in Hi by assumption.
    rewrite lookup_app_r in Hj by lia.
    apply list_lookup_singleton_Some in Hj as [_ <-].
    exfalso. eapply findSlug_None_slugOf; [exact Hnone|exact Hi|]. congruence.
  - rewrite lookup_app_l in Hj by assumption.
    rewrite lookup_app_r in Hi by lia.
    apply list_lookup_singleton_Some in Hi as [_ <-].
    exfalso. eapply findSlug_None_slugOf; [exact Hnone|exact Hj|]. congruence.
  - rewrite lookup_app_r in Hi, Hj by lia.
    apply list_lookup_singleton_Some in Hi as [Hi _].
    apply list_lookup_singleton_Some in Hj as [Hj _]. lia.
Qed.

Lemma processItem_distinct o dom c t st st' r :
  DistinctSlugs (articlesList st) -> processItem o dom c t st = (st', r) ->
  DistinctSlugs (articlesList st').
Proof.
  intros Hd. turn t st; intros [= <- <-]; simpl; try exact Hd.
  eapply DistinctSlugs_snoc; [exact Hd | exact E | reflexivity].
Qed.

Lemma processAll_distinct o dom its st st' r :
  DistinctSlugs (articlesList st) -> processAll o dom its st = (st', r) ->
  DistinctSlugs (articlesList st').
Proof.
  unfold processAll.
  apply (forOf_invariant _ (fun s => DistinctSlugs (articlesList s))).
  intros [c t] s s' r' Hs. apply processItem_distinct, Hs.
Qed.

Lemma DistinctSlugs_records rs :
  DistinctSlugs (List.map recordJSON rs) ->
  forall i j ri rj,
    rs !! i = Some ri -> rs !! j = Some rj -> i <> j ->
    rec_slug ri <> rec_slug rj.
Proof.
  intros Hd i j ri rj Hi Hj Hij Heq. apply Hij.
  change (List.map recordJSON rs) with (recordJSON <$> rs) in Hd.
  apply (Hd i j (recordJSON ri) (recordJSON rj) (rec_slug ri)).
  - rewrite list_lookup_fmap, Hi. reflexivity.
  - rewrite list_lookup_fmap, Hj. reflexivity.
  - reflexivity.
  - rewrite slugOf_recordJSON, Heq. reflexivity.
Qed.

(** The records a run of the loops appends are generated ones. *)
Lemma processAll_appends o dom its st st' r :
  processAll o dom its st = (st', r) ->
  exists rs, articlesList st' = articlesList st ++ List.map recordJSON rs /\
             Forall Generated rs.
Proof.
  unfold processAll. intros H. revert H.
  apply (forOf_invariant _
           (fun s => exists rs,
                articlesList s = articlesList st ++ List.map recordJSON rs /\
                Forall Generated rs)).
  - intros [c t] s s' r' (rs & Hl & Hg). simpl.
    turn t s; intros [= <- <-]; simpl; try (exists rs; split; assumption).
    eexists (rs ++ [_]). split.
    + rewrite Hl, map_app, <- app_assoc. reflexivity.
    + apply Forall_app. split; [exact Hg|]. constructor; [|constructor].
      apply recordOf_generated.
  - exists []. split; [symmetry; apply app_nil_r | constructor].
Qed.

(** ** The claims *)

(** C1, as the specification words it, fails on a letter outside ASCII:
    the algorithm that keeps every letter turns "Café" into "café", while
    [slugify] deletes the "é" and returns "caf". *)
Lemma slugify_drops_accented_letter :
  latinLetter 233 = true /\
  slugifySpec latinLetter asciiDigit cafe = str "caf" ++ [233] /\
  slugify cafe = str "caf" /\
  slugify cafe <> slugifySpec latinLetter asciiDigit cafe.
Proof.
  repeat match goal with |- _ /\ _ => split end;
    try (vm_compute; reflexivity).
  vm_compute. discriminate.
Qed.

(** C1, amended.  [slugify] is a function of the title alone: it
    lowercases the title, deletes every code unit that is not an ASCII
    letter, an ASCII digit, an underscore, white space or a hyphen, trims
    white space at both ends, replaces each run of white space by one
    hyphen and each run of hyphens by one hyphen.  In particular
    slugify("Cheap Chicken Rice") = "cheap-chicken-rice" and
    slugify("Beans & Pasta!") = "beans-pasta". *)
Theorem slugify_ascii_algorithm :
  (forall t, slugify t = slugifySpec asciiLetter asciiDigit t) /\
  slugify (str "Cheap Chicken Rice") = str "cheap-chicken-rice" /\
  slugify (str "Beans & Pasta!") = str "beans-pasta".
Proof.
  split; [exact slugify_refines|].
  split; vm_compute; reflexivity.
Qed.

(** C9.  [slugify] is idempotent, and a slug holds only lowercase ASCII
    letters, digits, underscores and hyphens, with no two hyphens in a
    row (so no white space either). *)
Theorem slugify_idempotent t :
  slugify (slugify t) = slugify t /\
  Forall (fun c => slugUnit c = true) (slugify t) /\
  Forall (fun c => whiteSpace c = false) (slugify t) /\
  noHyphenRun (slugify t) = true.
Proof.
  split; [apply slugify_idem|].
  split; [apply slugify_units|].
  split; [|apply slugify_noHyphenRun].
  eapply Forall_impl; [apply slugify_units | apply slugUnit_not_space].
Qed.




Lemma skips_write_nothing (its : list (list N * list N)) :
  Forall (fun e => isArticleWrite e = false)
    (List.map (fun it => LogSkipping (slugify it.2)) its).
Proof. induction its; constructor; [reflexivity | assumption]. Qed.

(** A run over titles whose slugs are all found: only the index is
    written, with the list as it was. *)
Lemma generate_covered o src fs :
  Forall (fun it => Covered (slugify it.2) (loadExistingIndex (outJson fs)))
    (configItems src) ->
  exists ev,
    generate o src fs [] =
    (Completed,
     withIndex (Some (Document (indexDoc (dateNow o 0)
                                  (loadExistingIndex (outJson fs))))) fs,
     ev) /\
    Forall (fun e => isArticleWrite e = false) ev.
Proof.
  intros Hcov. rewrite generate_eq.
  rewrite (processAll_covered o _ _ (startOf fs []) Hcov).
  eexists. split; [reflexivity|].
  simpl. apply Forall_app. split; [apply skips_write_nothing|].
  repeat constructor.
Qed.

(** C2.  When a run has completed, a second run on what it left, with
    the configuration unchanged, completes too, writes no article file,
    leaves the article files as they were and writes an index with the
    same list: every slug is found in the list it loads. *)
Theorem second_run_adds_nothing o o' fs fs1 ev1 :
  main o fs = (Completed, fs1, ev1) ->
  exists fs2 ev2,
    main o' fs1 = (Completed, fs2, ev2) /\
    Forall (fun e => isArticleWrite e = false) ev2 /\
    articles fs2 = articles fs1 /\
    loadExistingIndex (outJson fs2) = loadExistingIndex (outJson fs1) /\
    source fs2 = source fs1.
Proof.
  intros Hrun.
  apply main_completed in Hrun as (src & ev0 & st & _ & Hloop & -> & _).
  apply processAll_covers in Hloop.
  rewrite (main_finished o o' src (sourceDir fs) st).
  destruct (generate_covered o' src (finished o src (sourceDir fs) st) Hloop)
    as (ev & -> & Hev).
  eexists _, _. split; [reflexivity|]. repeat split. exact Hev.
Qed.

Lemma second_run_adds_nothing_witness :
  main sampleOracle emptyFS
  = (Completed, fsOf (main sampleOracle emptyFS),
     eventsOf (main sampleOracle emptyFS)) /\
  exists fs2 ev2,
    main sampleOracle (fsOf (main sampleOracle emptyFS))
    = (Completed, fs2, ev2) /\
    Forall (fun e => isArticleWrite e = false) ev2 /\
    articles fs2 = articles (fsOf (main sampleOracle emptyFS)) /\
    loadExistingIndex (outJson fs2)
    = loadExistingIndex (outJson (fsOf (main sampleOracle emptyFS))) /\
    source fs2 = source (fsOf (main sampleOracle emptyFS)).
Proof.
  split; [vm_compute; reflexivity|].
  apply (second_run_adds_nothing sampleOracle sampleOracle emptyFS
           (fsOf (main sampleOracle emptyFS))
           (eventsOf (main sampleOracle emptyFS))).
  vm_compute. reflexivity.
Defined.

Lemma NoDup_map_lookup {A B} (f : A -> B) (l : list A) i j x y :
  NoDup (List.map f l) -> l !! i = Some x -> l !! j = Some y ->
  f x = f y -> i = j.
Proof.
  intros Hnd Hi Hj Hf.
  change (List.map f l) with (f <$> l) in Hnd.
  eapply NoDup_lookup; [exact Hnd| |].
  - rewrite list_lookup_fmap, Hi. reflexivity.
  - rewrite list_lookup_fmap, Hj. simpl. rewrite Hf. reflexivity.
Qed.

(** C3.  In the list a completed run writes, no two records share a
    slug: a run keeps the slugs of the list distinct whatever the list it
    loads holds besides, and every index the script builds, starting
    without one it can load, is a list of records with distinct slugs.
    An item whose slug is found is skipped: nothing but the log changes.
    With "Tuna Wrap" in two categories, one page is written and one
    record with slug "tuna-wrap" is listed. *)
Theorem index_slugs_distinct :
  (forall o fs fs' ev,
     DistinctSlugs (loadExistingIndex (outJson fs)) ->
     main o fs = (Completed, fs', ev) ->
     exists ts l,
       outJson fs' = Some (Document (indexDoc ts l)) /\ DistinctSlugs l) /\
  (forall o fs fs' ev,
     Reachable fs -> main o fs = (Completed, fs', ev) ->
     exists ts rs,
       outJson fs' = Some (Document (indexDoc ts (List.map recordJSON rs))) /\
       forall i j ri rj,
         rs !! i = Some ri -> rs !! j = Some rj -> i <> j ->
         rec_slug ri <> rec_slug rj) /\
  (forall o dom c t st,
     Covered (slugify t) (articlesList st) ->
     processItem o dom c t st = (withOut st [LogSkipping (slugify t)], None)) /\
  (forall o, exists ts r html,
     exitOf (main o (fsWith tunaTwice)) = Completed /\
     outJson (fsOf (main o (fsWith tunaTwice)))
     = Some (Document (indexDoc ts [recordJSON r])) /\
     rec_slug r = str "tuna-wrap" /\
     rec_category r = str "Lunch" /\
     List.filter isFileWrite (eventsOf (main o (fsWith tunaTwice)))
     = [WriteArticle (str "tuna-wrap.html") html;
        WriteIndex (indexDoc ts [recordJSON r])] /\
     In (LogSkipping (str "tuna-wrap")) (eventsOf (main o (fsWith tunaTwice)))).
Proof.
  split; [|split; [|split]].
  - intros o fs fs' ev Hd Hrun.
    apply main_completed in Hrun as (src & ev0 & st & _ & Hloop & -> & _).
    exists (dateNow o (clock st)), (articlesList st).
    split; [reflexivity|]. eapply processAll_distinct; [|exact Hloop]. exact Hd.
  - intros o fs fs' ev Hreach Hrun.
    pose proof (main_IndexInv _ _ _ _ _ (reachable_IndexInv _ Hreach) Hrun)
      as Hinv.
    apply main_completed in Hrun as (src & ev0 & st & _ & _ & -> & _).
    destruct Hinv as (rs & Hl & Hnd & _). simpl in Hl.
    exists (dateNow o (clock st)), rs. split.
    + unfold finished. simpl. rewrite Hl. reflexivity.
    + intros i j ri rj Hi Hj Hij Heq. apply Hij.
      eapply NoDup_map_lookup; eassumption.
  - intros o dom c t st [a Ha]. eapply processItem_skip, Ha.
  - intros o.
    eexists (dateNow o 3),
      (recordOf (metaOf [] (str "Lunch") (str "Tuna Wrap") (str "tuna-wrap")
                   (dateNow o 0) (dateNow o 1) (mathRandom o 0))), _.
    repeat match goal with |- _ /\ _ => split end;
      try (lazy -[utf8Text articleHTML]; reflexivity).
    lazy -[utf8Text articleHTML]. tauto.
Qed.

Lemma index_slugs_distinct_witness :
  DistinctSlugs (loadExistingIndex (outJson emptyFS)) /\
  Reachable emptyFS /\
  main sampleOracle emptyFS
  = (Completed, fsOf (main sampleOracle emptyFS),
     eventsOf (main sampleOracle emptyFS)) /\
  (exists ts l,
     outJson (fsOf (main sampleOracle emptyFS))
     = Some (Document (indexDoc ts l)) /\ DistinctSlugs l) /\
  exists ts rs,
    outJson (fsOf (main sampleOracle emptyFS))
    = Some (Document (indexDoc ts (List.map recordJSON rs))) /\
    forall i j ri rj,
      rs !! i = Some ri -> rs !! j = Some rj -> i <> j ->
      rec_slug ri <> rec_slug rj.
Proof.
  assert (Hd : DistinctSlugs (loadExistingIndex (outJson emptyFS)))
    by apply DistinctSlugs_nil.
  assert (H0 : Reachable emptyFS) by (apply reach_fresh; reflexivity).
  assert (H1 : main sampleOracle emptyFS
               = (Completed, fsOf (main sampleOracle emptyFS),
                  eventsOf (main sampleOracle emptyFS)))
    by (vm_compute; reflexivity).
  split; [exact Hd|]. split; [exact H0|]. split; [exact H1|]. split.
  - exact (proj1 index_slugs_distinct sampleOracle emptyFS _ _ Hd H1).
  - exact (proj1 (proj2 index_slugs_distinct) sampleOracle emptyFS _ _ H0 H1).
Defined.

(** The second run of C4: the titles before the new one are skipped, the
    new one is tried, the titles after it are skipped. *)
Lemma processAll_one_new o dom l1 c t l2 st :
  Forall (fun it => Covered (slugify it.2) (articlesList st)) (l1 ++ l2) ->
  findSlug (slugify t) (articlesList st) = Ok None ->
  nameFits (slugify t ++ str ".html") = true ->
  exists st' r,
    processAll o dom (l1 ++ (c, t) :: l2) st = (st', None) /\
    articlesList st' = articlesList st ++ [recordJSON r] /\
    rec_title r = t /\ rec_slug r = slugify t /\ rec_category r = c /\
    Generated r.
Proof.
  intros [H1 H2]%Forall_app Hnone Hfit.
  pose proof (processAll_covered o dom l1 st H1) as E1.
  set (s1 := withOut st _) in E1.
  pose proof (processItem_new o dom c t s1 Hnone Hfit) as E2. cbv zeta in E2.
  match type of E2 with _ = (?s, None) => set (s2 := s) in E2 end.
  assert (E3 : exists s3, processAll o dom l2 s2 = (s3, None) /\
                          articlesList s3 = articlesList s2).
  { eexists. split; [apply processAll_covered|reflexivity].
    eapply Forall_impl; [exact H2|]. intros it Hit. apply Covered_app, Hit. }
  destruct E3 as (s3 & E3 & Hl3).
  eexists s3, _. split; [|split; [rewrite Hl3; reflexivity|]].
  - unfold processAll in *. rewrite forOf_app, E1, forOf_cons.
    cbn [fst snd]. rewrite E2. exact E3.
  - repeat split.
Qed.

(** When the name of the new page is too long, the second run stops at
    the new title. *)
Lemma processAll_one_long o dom l1 c t l2 st :
  Forall (fun it => Covered (slugify it.2) (articlesList st)) l1 ->
  findSlug (slugify t) (articlesList st) = Ok None ->
  nameFits (slugify t ++ str ".html") = false ->
  exists st', processAll o dom (l1 ++ (c, t) :: l2) st
              = (st', Some ENAMETOOLONG).
Proof.
  intros H1 Hnone Hfit.
  pose proof (processAll_covered o dom l1 st H1) as E1.
  set (s1 := withOut st _) in E1.
  pose proof (processItem_long o dom c t s1 Hnone Hfit) as E2.
  eexists. unfold processAll in *. rewrite forOf_app, E1, forOf_cons.
  cbn [fst snd]. rewrite E2. reflexivity.
Qed.

(** C4, as stated, fails when the slug of the new item is in the index
    already: with "Tuna Wrap" listed, adding the item "tuna wrap" appends
    no record. *)
Lemma colliding_item_not_appended :
  PlusOneItem tunaWrap tunaWrapAgain (str "tuna wrap") /\
  exitOf (main sampleOracle (fsWith tunaWrap)) = Completed /\
  exitOf (main sampleOracle
            (withSource (Some (Document tunaWrapAgain))
               (fsOf (main sampleOracle (fsWith tunaWrap))))) = Completed /\
  loadExistingIndex (outJson (fsOf (main sampleOracle
            (withSource (Some (Document tunaWrapAgain))
               (fsOf (main sampleOracle (fsWith tunaWrap)))))))
  = loadExistingIndex (outJson (fsOf (main sampleOracle (fsWith tunaWrap)))) /\
  length (loadExistingIndex (outJson (fsOf (main sampleOracle
            (withSource (Some (Document tunaWrapAgain))
               (fsOf (main sampleOracle (fsWith tunaWrap)))))))) = 1%nat.
Proof.
  split.
  - split; [reflexivity|].
    exists [(str "Lunch", str "Tuna Wrap")], [], (str "Lunch").
    split; reflexivity.
  - repeat match goal with |- _ /\ _ => split end; vm_compute; reflexivity.
Qed.

(** C4, amended.  After a completed run with configuration [A], take a
    run with [A] plus one new item.  When no record of the first run's
    list has the item's slug, the run completes exactly when the file
    system takes the name of the new page, and a run that completes has
    appended exactly one record, for that item, at the end of the first
    run's list.  When a record has the slug, the run completes and the
    list stays as it was.  Either way the records of the first run are
    unchanged and in order. *)
Theorem new_slug_appended o o' fs A A' t fs1 ev1 :
  source fs = Some (Document A) ->
  PlusOneItem A A' t ->
  main o fs = (Completed, fs1, ev1) ->
  (findSlug (slugify t) (loadExistingIndex (outJson fs1)) = Ok None ->
   (forall fs2 ev2,
      main o' (withSource (Some (Document A')) fs1) = (Completed, fs2, ev2) ->
      exists r,
        loadExistingIndex (outJson fs2)
        = loadExistingIndex (outJson fs1) ++ [recordJSON r] /\
        rec_title r = t /\ rec_slug r = slugify t) /\
   (exitOf (main o' (withSource (Some (Document A')) fs1)) = Completed <->
    nameFits (slugify t ++ str ".html") = true)) /\
  (Covered (slugify t) (loadExistingIndex (outJson fs1)) ->
   exists fs2 ev2,
     main o' (withSource (Some (Document A')) fs1) = (Completed, fs2, ev2) /\
     loadExistingIndex (outJson fs2) = loadExistingIndex (outJson fs1)).
Proof.
  intros Hsrc (Hdom & l1 & l2 & c & HA & HA') Hrun.
  apply main_completed in Hrun as (src & ev0 & st & Hs & Hloop & -> & _).
  assert (src = A) as ->.
  { destruct Hs as [Hs|[Hs _]]; congruence. }
  apply processAll_covers in Hloop. rewrite HA in Hloop.
  rewrite (main_finished_edited o o' A A' (sourceDir fs) st), generate_eq, HA'.
  split.
  - intros Hnone.
    destruct (nameFits (slugify t ++ str ".html")) eqn:Hfit.
    + destruct (processAll_one_new o' (default [] (domain A')) l1 c t l2
                  (startOf (finished o A' (sourceDir fs) st) []) Hloop Hnone Hfit)
        as (st' & r & -> & Hl & Ht & Hslug & _).
      split; [|split; reflexivity].
      intros fs2 ev2 [= <- <-]. exists r.
      split; [exact Hl|]. split; assumption.
    + apply Forall_app in Hloop as [H1 _].
      destruct (processAll_one_long o' (default [] (domain A')) l1 c t l2
                  (startOf (finished o A' (sourceDir fs) st) []) H1 Hnone Hfit)
        as (st' & ->).
      split; [discriminate|]. split; discriminate.
  - intros Hcov.
    rewrite (processAll_covered o' _ _
               (startOf (finished o A' (sourceDir fs) st) [])).
    + eexists _, _. split; reflexivity.
    + apply Forall_app in Hloop as [H1 H2].
      apply Forall_app. split; [exact H1|]. constructor; assumption.
Qed.

Lemma new_slug_appended_witness :
  source (fsWith tunaWrap) = Some (Document tunaWrap) /\
  PlusOneItem tunaWrap tunaWrapAndSoup (str "Leek Soup") /\
  main sampleOracle (fsWith tunaWrap)
  = (Completed, fsOf (main sampleOracle (fsWith tunaWrap)),
     eventsOf (main sampleOracle (fsWith tunaWrap))) /\
  findSlug (slugify (str "Leek Soup"))
    (loadExistingIndex (outJson (fsOf (main sampleOracle (fsWith tunaWrap)))))
  = Ok None /\
  main sampleOracle
    (withSource (Some (Document tunaWrapAndSoup))
       (fsOf (main sampleOracle (fsWith tunaWrap))))
  = (Completed,
     fsOf (main sampleOracle
             (withSource (Some (Document tunaWrapAndSoup))
                (fsOf (main sampleOracle (fsWith tunaWrap))))),
     eventsOf (main sampleOracle
                 (withSource (Some (Document tunaWrapAndSoup))
                    (fsOf (main sampleOracle (fsWith tunaWrap)))))) /\
  exists r,
    loadExistingIndex
      (outJson (fsOf (main sampleOracle
                        (withSource (Some (Document tunaWrapAndSoup))
                           (fsOf (main sampleOracle (fsWith tunaWrap)))))))
    = loadExistingIndex (outJson (fsOf (main sampleOracle (fsWith tunaWrap))))
      ++ [recordJSON r] /\
    rec_title r = str "Leek Soup" /\
    rec_slug r = slugify (str "Leek Soup").
Proof.
  assert (H0 : source (fsWith tunaWrap) = Some (Document tunaWrap))
    by reflexivity.
  assert (H1 : PlusOneItem tunaWrap tunaWrapAndSoup (str "Leek Soup")).
  { split; [reflexivity|].
    exists [(str "Lunch", str "Tuna Wrap")], [], (str "Lunch").
    split; reflexivity. }
  assert (H2 : main sampleOracle (fsWith tunaWrap)
               = (Completed, fsOf (main sampleOracle (fsWith tunaWrap)),
                  eventsOf (main sampleOracle (fsWith tunaWrap))))
    by (vm_compute; reflexivity).
  assert (H3 : findSlug (slugify (str "Leek Soup"))
                 (loadExistingIndex (outJson (fsOf (main sampleOracle (fsWith tunaWrap)))))
               = Ok None)
    by (vm_compute; reflexivity).
  assert (H4 : main sampleOracle
                 (withSource (Some (Document tunaWrapAndSoup))
                    (fsOf (main sampleOracle (fsWith tunaWrap))))
               = (Completed,
                  fsOf (main sampleOracle
                          (withSource (Some (Document tunaWrapAndSoup))
                             (fsOf (main sampleOracle (fsWith tunaWrap))))),
                  eventsOf (main sampleOracle
                              (withSource (Some (Document tunaWrapAndSoup))
                                 (fsOf (main sampleOracle (fsWith tunaWrap)))))))
    by (vm_compute; reflexivity).
  repeat (split; [assumption|]).
  exact (proj1 (proj1 (new_slug_appended sampleOracle sampleOracle _ _ _ _ _ _
                         H0 H1 H2) H3) _ _ H4).
Defined.

(** C5.  When [source.json] exists and cannot be parsed, the run ends
    with status 1 right after the parse: it has made the two output
    directories if they were missing and written no file; the index, the
    article files and [source.json] are as they were. *)
Theorem malformed_source_aborts o fs text :
  source fs = Some (Malformed text) ->
  exists fs' ev,
    main o fs = (Exited 1, fs', ev) /\
    exitStatus (exitOf (main o fs)) <> 0%Z /\
    outJson fs' = outJson fs /\
    articles fs' = articles fs /\
    source fs' = source fs /\
    Forall (fun e => isFileWrite e = false) ev /\
    ev = (if dataDir fs then [] else [Mkdir DataDir])
         ++ (if artDir fs then [] else [Mkdir ArticlesDir])
         ++ [LogParseFailure].
Proof.
  intros H. rewrite (main_malformed o fs text H).
  eexists _, _. split; [reflexivity|].
  split; [discriminate|]. repeat (split; [reflexivity|]).
  split.
  - simpl. destruct (dataDir fs), (artDir fs); repeat constructor.
  - simpl. rewrite <- app_assoc. reflexivity.
Qed.

Lemma malformed_source_aborts_witness :
  source (withSource (Some (Malformed (str "{ oops"))) emptyFS)
  = Some (Malformed (str "{ oops")) /\
  exists fs' ev,
    main sampleOracle (withSource (Some (Malformed (str "{ oops"))) emptyFS)
    = (Exited 1, fs', ev) /\
    exitStatus (exitOf (main sampleOracle
                  (withSource (Some (Malformed (str "{ oops"))) emptyFS)))
    <> 0%Z /\
    outJson fs' = outJson (withSource (Some (Malformed (str "{ oops"))) emptyFS) /\
    articles fs' = articles (withSource (Some (Malformed (str "{ oops"))) emptyFS) /\
    source fs' = source (withSource (Some (Malformed (str "{ oops"))) emptyFS) /\
    Forall (fun e => isFileWrite e = false) ev /\
    ev = (if dataDir (withSource (Some (Malformed (str "{ oops"))) emptyFS)
          then [] else [Mkdir DataDir])
         ++ (if artDir (withSource (Some (Malformed (str "{ oops"))) emptyFS)
             then [] else [Mkdir ArticlesDir])
         ++ [LogParseFailure].
Proof.
  split; [reflexivity|].
  apply (malformed_source_aborts sampleOracle
           (withSource (Some (Malformed (str "{ oops"))) emptyFS)
           (str "{ oops")).
  reflexivity.
Defined.

Lemma Generated_excerpt r :
  Generated r ->
  (length (rec_excerpt r) <= 140)%nat /\
  rec_excerpt r `prefix_of` intro (buildRecipe (rec_title r)).
Proof.
  intros (_ & Hex & _). rewrite Hex. unfold slice. simpl skipn.
  split; [apply firstn_le_length | apply prefix_take].
Qed.

(** C6.  Every record of an index the script has built has an excerpt of
    at most 140 code units (the units JavaScript counts) that is a prefix
    of the introduction [buildRecipe] makes for the record's title; and
    whatever index a run starts from, the list it writes is the list it
    loaded followed by records with such excerpts. *)
Theorem excerpt_bound :
  (forall fs e,
     Reachable fs -> In e (loadExistingIndex (outJson fs)) ->
     exists r,
       e = recordJSON r /\
       (length (rec_excerpt r) <= 140)%nat /\
       rec_excerpt r `prefix_of` intro (buildRecipe (rec_title r))) /\
  (forall o fs fs' ev,
     main o fs = (Completed, fs', ev) ->
     exists rs,
       loadExistingIndex (outJson fs')
       = loadExistingIndex (outJson fs) ++ List.map recordJSON rs /\
       Forall (fun r =>
                 (length (rec_excerpt r) <= 140)%nat /\
                 rec_excerpt r `prefix_of` intro (buildRecipe (rec_title r)))
         rs).
Proof.
  split.
  - intros fs e Hreach Hin.
    destruct (reachable_IndexInv fs Hreach) as (rs & Hl & _ & Hgen).
    rewrite Hl in Hin. apply in_map_iff in Hin as (r & <- & Hr).
    rewrite List.Forall_forall in Hgen.
    exists r. split; [reflexivity|]. apply Generated_excerpt, Hgen, Hr.
  - intros o fs fs' ev Hrun.
    apply main_completed in Hrun as (src & ev0 & st & _ & Hloop & -> & _).
    apply processAll_appends in Hloop as (rs & Hl & Hgen).
    exists rs. split; [exact Hl|].
    eapply Forall_impl; [exact Hgen | apply Generated_excerpt].
Qed.

Lemma excerpt_bound_witness :
  Reachable (fsOf (main sampleOracle emptyFS)) /\
  In (recordJSON (recordOf (metaOf (str "https://plateup.pro")
                              (str "Budget Cooking") (str "Tuna Wrap")
                              (str "tuna-wrap") 1700000000012 1700000000013
                              (str "0.4fzyo82mvyr"))))
    (loadExistingIndex (outJson (fsOf (main sampleOracle emptyFS)))) /\
  exists r,
    recordJSON (recordOf (metaOf (str "https://plateup.pro")
                            (str "Budget Cooking") (str "Tuna Wrap")
                            (str "tuna-wrap") 1700000000012 1700000000013
                            (str "0.4fzyo82mvyr"))) = recordJSON r /\
    (length (rec_excerpt r) <= 140)%nat /\
    rec_excerpt r `prefix_of` intro (buildRecipe (rec_title r)).
Proof.
  assert (H0 : Reachable (fsOf (main sampleOracle emptyFS))).
  { eapply (reach_run sampleOracle emptyFS (exitOf (main sampleOracle emptyFS))
              _ (eventsOf (main sampleOracle emptyFS))).
    - apply reach_fresh. reflexivity.
    - vm_compute. reflexivity. }
  assert (H1 : In (recordJSON (recordOf (metaOf (str "https://plateup.pro")
                              (str "Budget Cooking") (str "Tuna Wrap")
                              (str "tuna-wrap") 1700000000012 1700000000013
                              (str "0.4fzyo82mvyr"))))
                 (loadExistingIndex (outJson (fsOf (main sampleOracle emptyFS))))).
  { vm_compute. tauto. }
  split; [exact H0|]. split; [exact H1|].
  exact (proj1 excerpt_bound _ _ H0 H1).
Defined.

(** The index as the three cases of C7 describe it. *)
Lemma loadExistingIndex_unreadable f :
  f = None \/
  (exists text, f = Some (Malformed text)) \/
  (exists old, f = Some (Document old) /\
               forall l, getProp old (str "list") <> Ok (Some (JArr l))) ->
  loadExistingIndex f = [].
Proof.
  intros [->|[[text ->]|(old & -> & Hno)]]; try reflexivity.
  unfold loadExistingIndex.
  destruct (getProp old (str "list")) as [[[]|]|]; try reflexivity.
  exfalso. eapply Hno. reflexivity.
Qed.

(** A run from an index that loads as the empty list goes as the run
    from no index at all. *)
Lemma generate_no_index o src fs ev :
  loadExistingIndex (outJson fs) = [] ->
  exitOf (generate o src fs ev) = exitOf (generate o src (withIndex None fs) ev) /\
  eventsOf (generate o src fs ev)
  = eventsOf (generate o src (withIndex None fs) ev) /\
  withIndex None (fsOf (generate o src fs ev))
  = withIndex None (fsOf (generate o src (withIndex None fs) ev)) /\
  (exitOf (generate o src fs ev) = Completed ->
   generate o src fs ev = generate o src (withIndex None fs) ev).
Proof.
  intros Hl. rewrite !generate_eq.
  assert (Hst : startOf fs ev = startOf (withIndex None fs) ev).
  { unfold startOf. simpl. rewrite Hl. reflexivity. }
  rewrite <- Hst.
  destruct (processAll _ _ _ _) as [st [e|]]; repeat split.
  discriminate.
Qed.

(** C7.  An index that is missing, that does not parse, or whose [list]
    is not an array loads as the empty list, and the run goes on as if
    there were no index: it ends the same way, with the same writes and
    messages in the same order, and it leaves the same file system,
    [articles.json] apart when the run does not get to write it.  A
    configuration that does not parse, unlike an index, ends the run with
    status 1. *)
Theorem unreadable_index_is_empty o fs :
  outJson fs = None \/
  (exists text, outJson fs = Some (Malformed text)) \/
  (exists old, outJson fs = Some (Document old) /\
               forall l, getProp old (str "list") <> Ok (Some (JArr l))) ->
  loadExistingIndex (outJson fs) = [] /\
  exitOf (main o fs) = exitOf (main o (withIndex None fs)) /\
  eventsOf (main o fs) = eventsOf (main o (withIndex None fs)) /\
  withIndex None (fsOf (main o fs))
  = withIndex None (fsOf (main o (withIndex None fs))) /\
  (exitOf (main o fs) = Completed ->
   main o fs = main o (withIndex None fs)) /\
  (forall text, source fs = Some (Malformed text) ->
   exitOf (main o fs) = Exited 1).
Proof.
  intros H. apply loadExistingIndex_unreadable in H. split; [exact H|].
  destruct (source fs) as [[text|src]|] eqn:Hs.
  - rewrite (main_malformed o fs text Hs).
    rewrite (main_malformed o (withIndex None fs) text Hs).
    repeat split. discriminate.
  - rewrite (main_document o fs src Hs).
    rewrite (main_document o (withIndex None fs) src Hs).
    destruct (generate_no_index o src (ensureDirs fs).1 (ensureDirs fs).2 H)
      as (E1 & E2 & E3 & E4).
    repeat (split; [assumption|]). discriminate.
  - destruct (sourceDir fs) eqn:Hd.
    + rewrite (main_missing o fs Hs Hd).
      rewrite (main_missing o (withIndex None fs) Hs Hd).
      match goal with |- context [generate o defaultSrc ?f ?e = _] =>
        destruct (generate_no_index o defaultSrc f e H) as (E1 & E2 & E3 & E4)
      end.
      repeat (split; [assumption|]). discriminate.
    + rewrite (main_no_directory o fs Hs Hd).
      rewrite (main_no_directory o (withIndex None fs) Hs Hd).
      repeat split; discriminate.
Qed.

Lemma unreadable_index_is_empty_witness :
  (outJson corruptIndexFS = None \/
   (exists text, outJson corruptIndexFS = Some (Malformed text)) \/
   (exists old, outJson corruptIndexFS = Some (Document old) /\
                forall l, getProp old (str "list") <> Ok (Some (JArr l)))) /\
  exitOf (main sampleOracle corruptIndexFS) = Completed /\
  loadExistingIndex (outJson corruptIndexFS) = [] /\
  main sampleOracle corruptIndexFS
  = main sampleOracle (withIndex None corruptIndexFS).
Proof.
  assert (H : outJson corruptIndexFS = None \/
              (exists text, outJson corruptIndexFS = Some (Malformed text)) \/
              (exists old, outJson corruptIndexFS = Some (Document old) /\
                 forall l, getProp old (str "list") <> Ok (Some (JArr l)))).
  { right. left. eexists. reflexivity. }
  assert (Hc : exitOf (main sampleOracle corruptIndexFS) = Completed)
    by (vm_compute; reflexivity).
  split; [exact H|]. split; [exact Hc|].
  destruct (unreadable_index_is_empty sampleOracle corruptIndexFS H)
    as (Hl & _ & _ & _ & Hsame & _).
  split; [exact Hl | exact (Hsame Hc)].
Defined.

(** C8, as stated, fails when there is an index already: a run with no
    category after the run on the built-in configuration writes the five
    records of that run again, not the empty list. *)
Lemma empty_categories_keeps_list :
  categories noCategories = Some [] /\
  exitOf (main sampleOracle
            (withSource (Some (Document noCategories))
               (fsOf (main sampleOracle emptyFS)))) = Completed /\
  loadExistingIndex (outJson (fsOf (main sampleOracle
            (withSource (Some (Document noCategories))
               (fsOf (main sampleOracle emptyFS))))))
  = loadExistingIndex (outJson (fsOf (main sampleOracle emptyFS))) /\
  length (loadExistingIndex (outJson (fsOf (main sampleOracle
            (withSource (Some (Document noCategories))
               (fsOf (main sampleOracle emptyFS))))))) = 5%nat.
Proof.
  repeat match goal with |- _ /\ _ => split end; vm_compute; reflexivity.
Qed.

(** C8, amended.  When the configuration's categories array is empty,
    the run completes with status 0, writes no article file and leaves
    the article files as they were, and writes the index with the list of
    the previous index: the empty list when there was no index, or none
    that could be loaded. *)
Theorem empty_categories_run o fs src :
  source fs = Some (Document src) ->
  categories src = Some [] ->
  exists fs' ev,
    main o fs = (Completed, fs', ev) /\
    exitStatus (exitOf (main o fs)) = 0%Z /\
    Forall (fun e => isArticleWrite e = false) ev /\
    articles fs' = articles fs /\
    outJson fs'
    = Some (Document (indexDoc (dateNow o 0) (loadExistingIndex (outJson fs)))) /\
    (loadExistingIndex (outJson fs) = [] ->
     outJson fs' = Some (Document (indexDoc (dateNow o 0) []))).
Proof.
  intros Hs Hc. rewrite (main_document o fs src Hs), generate_eq.
  unfold configItems. rewrite Hc. cbn [default itemsOf flat_map processAll forOf].
  eexists _, _. split; [reflexivity|]. split; [reflexivity|].
  cbn [startOf out articlesList artFiles clock outJson articles ensureDirs fst snd].
  split; [|split; [reflexivity|split; [reflexivity|]]].
  - simpl. destruct (dataDir fs), (artDir fs); repeat constructor.
  - simpl. intros ->. reflexivity.
Qed.

Lemma empty_categories_run_witness :
  source (fsWith noCategories) = Some (Document noCategories) /\
  categories noCategories = Some [] /\
  exists fs' ev,
    main sampleOracle (fsWith noCategories) = (Completed, fs', ev) /\
    exitStatus (exitOf (main sampleOracle (fsWith noCategories))) = 0%Z /\
    Forall (fun e => isArticleWrite e = false) ev /\
    articles fs' = articles (fsWith noCategories) /\
    outJson fs'
    = Some (Document (indexDoc (dateNow sampleOracle 0)
                        (loadExistingIndex (outJson (fsWith noCategories))))) /\
    (loadExistingIndex (outJson (fsWith noCategories)) = [] ->
     outJson fs' = Some (Document (indexDoc (dateNow sampleOracle 0) []))).
Proof.
  split; [reflexivity|]. split; [reflexivity|].
  apply (empty_categories_run sampleOracle (fsWith noCategories) noCategories);
    reflexivity.
Defined.

(** * Further properties *)

(** ** What the loops emit and when they throw *)

Lemma forOf_invariant_In {A} (body : A -> Loop -> Loop * option Thrown)
    (I : Loop -> Prop) xs st st' r :
  (forall x s s' r', In x xs -> I s -> body x s = (s', r') -> I s') ->
  I st -> forOf body xs st = (st', r) -> I st'.
Proof.
  revert st. induction xs as [|x xs IH]; intros st Hstep Hst; simpl.
  - intros [= <- <-]. exact Hst.
  - destruct (body x st) as [s1 [e|]] eqn:E.
    + intros [= <- <-]. eapply Hstep; [left; reflexivity| |]; eassumption.
    + apply IH.
      * intros y s s' r' Hy. apply Hstep. right. exact Hy.
      * eapply Hstep; [left; reflexivity| |]; eassumption.
Qed.

Lemma processItem_out o dom c t st st' r :
  processItem o dom c t st = (st', r) ->
  exists ev, out st' = out st ++ ev /\
             Forall (fun e => isLoopEvent e = true) ev.
Proof.
  turn t st; intros [= <- <-]; simpl.
  1,2: eexists; split; [reflexivity|]; repeat constructor.
  all: exists []; split; [symmetry; apply app_nil_r | constructor].
Qed.

Lemma processAll_out o dom its st st' r :
  processAll o dom its st = (st', r) ->
  exists ev, out st' = out st ++ ev /\
             Forall (fun e => isLoopEvent e = true) ev.
Proof.
  unfold processAll. intros H. revert H.
  apply (forOf_invariant _
           (fun s => exists ev, out s = out st ++ ev /\
                                Forall (fun e => isLoopEvent e = true) ev)).
  - intros [c t] s s' r' (ev & Hev & Hall) Hs. simpl in Hs.
    apply processItem_out in Hs as (ev' & Hev' & Hall').
    exists (ev ++ ev'). split.
    + rewrite Hev', Hev, app_assoc. reflexivity.
    + apply Forall_app. split; assumption.
  - exists []. split; [symmetry; apply app_nil_r | constructor].
Qed.

Lemma findSlug_None_Readable s l : findSlug s l = Ok None -> Readable l.
Proof.
  induction l as [|a l IH]; simpl; [constructor|].
  destruct (getProp a (str "slug")) as [v|e] eqn:Ea; [|discriminate].
  destruct (strictEqStr v s); [discriminate|].
  intros H. constructor; [|apply IH, H].
  intros ->. discriminate.
Qed.

Lemma Readable_findSlug s l : Readable l -> exists r, findSlug s l = Ok r.
Proof.
  induction 1 as [|a l Ha _ [r IH]]; simpl; [eauto|].
  destruct a; try contradiction; simpl;
    try (rewrite IH; eauto);
    match goal with |- context [if ?b then _ else _] => destruct b end; eauto.
Qed.

(** The search throws only on [null], and then a [TypeError]. *)
Lemma findSlug_Throw_null s l e :
  findSlug s l = Throw e -> e = TypeError /\ In JNull l.
Proof.
  induction l as [|a l IH]; simpl; [discriminate|].
  destruct a; simpl;
    try (intros H; destruct (IH H) as [He Hin];
         split; [exact He | right; exact Hin]);
    try (intros [= <-]; split; [reflexivity | left; reflexivity]).
  match goal with |- context [if ?b then _ else _] => destruct b end;
    [discriminate|].
  intros H; destruct (IH H) as [He Hin]. split; [exact He | right; exact Hin].
Qed.

Lemma processItem_Readable o dom c t st st' r :
  Readable (articlesList st) -> processItem o dom c t st = (st', r) ->
  Readable (articlesList st').
Proof.
  intros Hr. turn t st; intros [= <- <-]; simpl; try exact Hr.
  apply Forall_app. split; [exact Hr|]. constructor; [discriminate|constructor].
Qed.

(** A turn does not throw when the list has no [null] and the slug is
    found or the name of the page fits. *)
Lemma processItem_completes o dom c t st :
  Readable (articlesList st) ->
  Covered (slugify t) (articlesList st) \/
  nameFits (fileName (slugify t)) = true ->
  exists st', processItem o dom c t st = (st', None).
Proof.
  unfold fileName. intros Hr Hok.
  destruct (Readable_findSlug (slugify t) _ Hr) as [[a|] E].
  - rewrite (processItem_skip _ _ _ _ _ a E). eauto.
  - destruct Hok as [[a Ha]|Hfit]; [congruence|].
    rewrite (processItem_new _ _ _ _ _ E Hfit). eauto.
Qed.

Lemma processAll_completes o dom its st :
  Readable (articlesList st) ->
  Forall (fun it => Covered (slugify it.2) (articlesList st) \/
                    nameFits (fileName (slugify it.2)) = true) its ->
  exists st', processAll o dom its st = (st', None).
Proof.
  revert st. induction its as [|[c t] its IH]; intros st Hr Hall.
  - eexists. reflexivity.
  - inversion Hall as [|? ? Hit Hrest]; subst. cbn [snd] in Hit.
    destruct (processItem_completes o dom c t st Hr Hit) as [s1 E].
    unfold processAll. rewrite forOf_cons. cbn [fst snd]. rewrite E.
    apply IH.
    + eapply processItem_Readable; eassumption.
    + eapply Forall_impl; [exact Hrest|].
      intros it [Hc|Hf]; [left|right; exact Hf].
      apply processItem_grows in E as [l ->]. apply Covered_app, Hc.
Qed.

(** When the loops throw, it is for one of two causes.  A [TypeError]:
    the list holds [null], and nothing was appended or written.
    [ENAMETOOLONG]: the list holds no [null], and the name of the page of
    a title whose slug the list does not have is too long. *)
Lemma processAll_throws o dom its st st' e :
  processAll o dom its st = (st', Some e) ->
  (e = TypeError /\ In JNull (articlesList st) /\
   articlesList st' = articlesList st /\ artFiles st' = artFiles st /\
   List.filter isArticleWrite (out st')
   = List.filter isArticleWrite (out st)) \/
  (e = ENAMETOOLONG /\ Readable (articlesList st) /\
   exists it, In it its /\
              nameFits (fileName (slugify it.2)) = false /\
              ~ Covered (slugify it.2) (articlesList st)).
Proof.
  revert st. induction its as [|[c t] its IH]; intros st; [discriminate|].
  unfold processAll. rewrite forOf_cons. cbn [fst snd].
  unfold processItem at 1.
  destruct (findSlug (slugify t) (articlesList st)) as [[a|]|e'] eqn:E;
    [ | destruct (nameFits (slugify t ++ str ".html")) eqn:Efit | ].
  - intros H. apply IH in H. simpl in H.
    destruct H as [(He & Hn & H1 & H2 & H3)|(He & Hr & it & Hin & Hfit & Hnc)].
    + left. rewrite List.filter_app in H3. simpl in H3.
      rewrite app_nil_r in H3. auto 6.
    + right. split; [exact He|]. split; [exact Hr|]. exists it.
      split; [right; exact Hin|]. split; assumption.
  - intros H. apply IH in H. simpl in H.
    assert (Hr : Readable (articlesList st))
      by (eapply findSlug_None_Readable, E).
    destruct H as [(_ & Hn & _)|(He & _ & it & Hin & Hfit & Hnc)].
    + exfalso. apply in_app_or in Hn as [Hn|[Hn|[]]]; [|discriminate].
      unfold Readable in Hr. rewrite List.Forall_forall in Hr.
      exact (Hr _ Hn eq_refl).
    + right. split; [exact He|]. split; [exact Hr|]. exists it.
      split; [right; exact Hin|]. split; [exact Hfit|].
      intros Hc. apply Hnc. apply Covered_app, Hc.
  - intros [= <- <-]. right. split; [reflexivity|].
    split; [eapply findSlug_None_Readable, E|].
    exists (c, t). split; [left; reflexivity|]. split; [exact Efit|].
    intros [a Ha]. simpl in Ha. congruence.
  - intros [= <- <-]. apply findSlug_Throw_null in E as [-> Hn].
    left. repeat split. exact Hn.
Qed.

(** ** Runs, by what ends them *)

(** How a run sets out: a configuration that does not parse; neither a
    configuration nor its directory; or a configuration to go on with. *)
Lemma source_cases fs :
  (exists text, source fs = Some (Malformed text)) \/
  (source fs = None /\ sourceDir fs = false) \/
  ((forall text, source fs <> Some (Malformed text)) /\
   (source fs = None -> sourceDir fs = true)).
Proof.
  destruct (source fs) as [[text|src]|]; [left; eauto|right; right..|].
  - split; discriminate.
  - destruct (sourceDir fs); [right; right|right; left]; split;
      try reflexivity; try discriminate.
Qed.

(** A run that has a configuration to go on with is [generate] on the
    prepared file system. *)
Lemma main_generate o fs :
  (forall text, source fs <> Some (Malformed text)) ->
  (source fs = None -> sourceDir fs = true) ->
  exists src fs2,
    main o fs
    = generate o src fs2
        ((ensureDirs fs).2 ++ (initSource (ensureDirs fs).1).1.2) /\
    source fs2 = Some (Document src) /\
    outJson fs2 = outJson fs /\
    articles fs2 = articles fs /\
    dataDir fs2 = true /\ artDir fs2 = true /\
    (source fs = Some (Document src) \/ source fs = None /\ src = defaultSrc).
Proof.
  intros Hs Hd. destruct (source fs) as [[text|src]|] eqn:E.
  - exfalso. eapply Hs. reflexivity.
  - exists src, (ensureDirs fs).1. split.
    + rewrite (main_document o fs src E). unfold initSource. simpl.
      rewrite E. simpl. rewrite app_nil_r. reflexivity.
    + simpl. rewrite E. repeat split. left. reflexivity.
  - specialize (Hd eq_refl). eexists defaultSrc, _. split.
    + rewrite (main_missing o fs E Hd). unfold initSource. simpl.
      rewrite E, Hd. reflexivity.
    + simpl. repeat split. right. split; reflexivity.
Qed.

Lemma loop_events_no_index ev :
  Forall (fun e => isLoopEvent e = true) ev ->
  Forall (fun e => isIndexWrite e = false) ev.
Proof.
  intros H. eapply Forall_impl; [exact H|].
  intros x Hx. destruct x; try discriminate; reflexivity.
Qed.

Lemma no_article_write ev :
  Forall (fun e => isLoopEvent e = true) ev ->
  List.filter isArticleWrite ev = [] ->
  Forall (fun e => isArticleWrite e = false) ev.
Proof.
  induction 1 as [|x ev Hx _ IH]; [constructor|].
  destruct x; try discriminate; simpl; intros H; try discriminate;
    (constructor; [reflexivity | apply IH, H]).
Qed.

(** A run of the loops that throws, by its cause. *)
Lemma generate_uncaught o src fs ev0 e fs' ev :
  generate o src fs ev0 = (Uncaught e, fs', ev) ->
  outJson fs' = outJson fs /\
  (exists ev1, ev = ev0 ++ ev1 /\
               Forall (fun x => isLoopEvent x = true) ev1 /\
               (e = TypeError -> Forall (fun x => isArticleWrite x = false) ev1)) /\
  (e = TypeError /\ In JNull (loadExistingIndex (outJson fs)) /\
   articles fs' = articles fs \/
   e = ENAMETOOLONG /\ Readable (loadExistingIndex (outJson fs)) /\
   exists it, In it (configItems src) /\
              nameFits (fileName (slugify it.2)) = false /\
              ~ Covered (slugify it.2) (loadExistingIndex (outJson fs))).
Proof.
  rewrite generate_eq.
  destruct (processAll _ _ _ _) as [st [e0|]] eqn:Hloop; [|discriminate].
  intros [= <- <- <-].
  pose proof (processAll_out _ _ _ _ _ _ Hloop) as (ev1 & Hout & Hev1).
  cbn [out startOf] in Hout.
  split; [reflexivity|].
  apply processAll_throws in Hloop
    as [(He & Hn & _ & Hf & Hw)|(He & Hr & Hit)].
  - split.
    + exists ev1. split; [exact Hout|]. split; [exact Hev1|]. intros _.
      apply no_article_write; [exact Hev1|].
      cbn [out startOf] in Hw. rewrite Hout, List.filter_app in Hw.
      apply (f_equal (@length Event)) in Hw. rewrite length_app in Hw.
      destruct (List.filter isArticleWrite ev1); [reflexivity|simpl in Hw; lia].
    + left. split; [exact He|]. split; [exact Hn | exact Hf].
  - split.
    + exists ev1. split; [exact Hout|]. split; [exact Hev1|].
      rewrite He. discriminate.
    + right. split; [exact He|]. split; [exact Hr | exact Hit].
Qed.

(** X3.  With a configuration of the shape of the specification, a run
    that an uncaught exception ends has not written the index, and its
    status is 1.  The exception is a [TypeError] when the list of the
    index holds [null]: then no page was written either.  It is
    [ENAMETOOLONG] when the list holds no [null] and the name of the page
    of a configured title, whose slug the index does not have, is longer
    than the file system takes. *)
Theorem uncaught_run_by_cause o fs src e fs' ev :
  source fs = Some (Document src) ->
  main o fs = (Uncaught e, fs', ev) ->
  outJson fs' = outJson fs /\
  Forall (fun x => isIndexWrite x = false) ev /\
  exitStatus (exitOf (main o fs)) = 1%Z /\
  (e = TypeError /\
   In JNull (loadExistingIndex (outJson fs)) /\
   articles fs' = articles fs /\
   Forall (fun x => isArticleWrite x = false) ev
   \/
   e = ENAMETOOLONG /\
   Readable (loadExistingIndex (outJson fs)) /\
   exists it, In it (configItems src) /\
              nameFits (fileName (slugify it.2)) = false /\
              ~ Covered (slugify it.2) (loadExistingIndex (outJson fs))).
Proof.
  intros Hs Hrun. rewrite Hrun. rewrite (main_document o fs src Hs) in Hrun.
  apply generate_uncaught in Hrun
    as (Hi & (ev1 & -> & Hev1 & Hnw) & Hcause).
  assert (Hdirs : Forall (fun x => isArticleWrite x = false /\
                                   isIndexWrite x = false) (ensureDirs fs).2).
  { simpl. destruct (dataDir fs), (artDir fs); repeat constructor. }
  split; [exact Hi|]. split; [|split; [reflexivity|]].
  - apply Forall_app. split.
    + eapply Forall_impl; [exact Hdirs|]. intros x [_ H]. exact H.
    + apply loop_events_no_index, Hev1.
  - destruct Hcause as [(He & Hn & Hf)|(He & Hr & Hit)].
    + left. split; [exact He|]. split; [exact Hn|]. split; [exact Hf|].
      apply Forall_app. split; [|apply Hnw, He].
      eapply Forall_impl; [exact Hdirs|]. intros x [H _]. exact H.
    + right. split; [exact He|]. split; [exact Hr | exact Hit].
Qed.

Lemma uncaught_run_by_cause_witness :
  (source nullIndexFS = Some (Document tunaWrap) /\
   main sampleOracle nullIndexFS
   = (Uncaught TypeError, fsOf (main sampleOracle nullIndexFS),
      eventsOf (main sampleOracle nullIndexFS)) /\
   outJson (fsOf (main sampleOracle nullIndexFS)) = outJson nullIndexFS /\
   Forall (fun x => isIndexWrite x = false)
     (eventsOf (main sampleOracle nullIndexFS))) /\
  (source longTitleFS = Some (Document longTitle) /\
   main sampleOracle longTitleFS
   = (Uncaught ENAMETOOLONG, fsOf (main sampleOracle longTitleFS),
      eventsOf (main sampleOracle longTitleFS)) /\
   outJson (fsOf (main sampleOracle longTitleFS)) = outJson longTitleFS /\
   Forall (fun x => isIndexWrite x = false)
     (eventsOf (main sampleOracle longTitleFS))).
Proof.
  assert (H0 : source nullIndexFS = Some (Document tunaWrap)) by reflexivity.
  assert (H1 : main sampleOracle nullIndexFS
               = (Uncaught TypeError, fsOf (main sampleOracle nullIndexFS),
                  eventsOf (main sampleOracle nullIndexFS)))
    by (vm_compute; reflexivity).
  assert (H2 : source longTitleFS = Some (Document longTitle)) by reflexivity.
  assert (H3 : main sampleOracle longTitleFS
               = (Uncaught ENAMETOOLONG, fsOf (main sampleOracle longTitleFS),
                  eventsOf (main sampleOracle longTitleFS)))
    by (vm_compute; reflexivity).
  split.
  - split; [exact H0|]. split; [exact H1|].
    destruct (uncaught_run_by_cause _ _ _ _ _ _ H0 H1) as (Ha & Hb & _).
    split; [exact Ha | exact Hb].
  - split; [exact H2|]. split; [exact H3|].
    destruct (uncaught_run_by_cause _ _ _ _ _ _ H2 H3) as (Ha & Hb & _).
    split; [exact Ha | exact Hb].
Defined.

(** X4.  With a configuration of the shape of the specification, the
    run completes with status 0 when the list of the index holds no
    [null] and the name of the page of every configured title, whose slug
    the index does not have, is one the file system takes: numbers,
    strings, arrays and objects without a slug in the list make no run
    throw. *)
Theorem readable_index_run_completes o fs src :
  source fs = Some (Document src) ->
  Readable (loadExistingIndex (outJson fs)) ->
  Forall (fun it =>
            Covered (slugify it.2) (loadExistingIndex (outJson fs)) \/
            nameFits (fileName (slugify it.2)) = true) (configItems src) ->
  exists fs' ev,
    main o fs = (Completed, fs', ev) /\
    exitStatus (exitOf (main o fs)) = 0%Z.
Proof.
  intros Hs Hr Hfit.
  rewrite (main_document o fs src Hs), generate_eq.
  destruct (processAll_completes o (default [] (domain src)) (configItems src)
              (startOf (ensureDirs fs).1 (ensureDirs fs).2) Hr Hfit)
    as (st & ->).
  eexists _, _. split; reflexivity.
Qed.

Lemma readable_index_run_completes_witness :
  source junkIndexFS = Some (Document tunaWrap) /\
  loadExistingIndex (outJson junkIndexFS)
  = [JNum 5; JStr (str "tuna-wrap"); JBool true; JArr [JNull]; JObj [];
     JObj [(str "slug", JNum 7)]] /\
  Readable (loadExistingIndex (outJson junkIndexFS)) /\
  Forall (fun it =>
            Covered (slugify it.2) (loadExistingIndex (outJson junkIndexFS)) \/
            nameFits (fileName (slugify it.2)) = true) (configItems tunaWrap) /\
  exists fs' ev,
    main sampleOracle junkIndexFS = (Completed, fs', ev) /\
    exitStatus (exitOf (main sampleOracle junkIndexFS)) = 0%Z.
Proof.
  assert (H0 : source junkIndexFS = Some (Document tunaWrap)) by reflexivity.
  assert (H1 : Readable (loadExistingIndex (outJson junkIndexFS)))
    by (repeat constructor; discriminate).
  assert (H2 : Forall (fun it =>
                 Covered (slugify it.2)
                   (loadExistingIndex (outJson junkIndexFS)) \/
                 nameFits (fileName (slugify it.2)) = true)
                 (configItems tunaWrap)).
  { constructor; [|constructor]. right. vm_compute. reflexivity. }
  split; [exact H0|]. split; [reflexivity|]. split; [exact H1|].
  split; [exact H2|].
  exact (readable_index_run_completes sampleOracle junkIndexFS tunaWrap
           H0 H1 H2).
Defined.

Lemma loop_events_not_source ev :
  Forall (fun e => isLoopEvent e = true) ev ->
  List.filter isSourceWrite ev = [] /\ List.filter isMkdir ev = [].
Proof.
  induction 1 as [|x ev Hx _ [IH1 IH2]]; [split; reflexivity|].
  destruct x; try discriminate; simpl; split; assumption.
Qed.

(** The writes of [source.json] and the directories made, of any run. *)
Lemma main_source_events o fs :
  List.filter isSourceWrite (eventsOf (main o fs))
  = List.filter isSourceWrite (initSource (ensureDirs fs).1).1.2 /\
  List.filter isMkdir (eventsOf (main o fs)) = (ensureDirs fs).2 /\
  dataDir (fsOf (main o fs)) = true /\
  artDir (fsOf (main o fs)) = true.
Proof.
  assert (Hpre : List.filter isSourceWrite (ensureDirs fs).2 = [] /\
                 List.filter isMkdir (ensureDirs fs).2 = (ensureDirs fs).2 /\
                 List.filter isMkdir (initSource (ensureDirs fs).1).1.2 = []).
  { unfold initSource. simpl.
    destruct (dataDir fs), (artDir fs), (source fs), (sourceDir fs);
      repeat split. }
  destruct Hpre as (Hp1 & Hp2 & Hp3).
  destruct (source_cases fs) as [[text E]|[[E Hd]|[Hs Hd]]].
  - rewrite (main_malformed o fs text E). unfold eventsOf, fsOf.
    cbn [fst snd]. rewrite !List.filter_app, Hp1, Hp2.
    unfold initSource. simpl. rewrite E. simpl. rewrite app_nil_r.
    repeat split.
  - rewrite (main_no_directory o fs E Hd). unfold eventsOf, fsOf.
    cbn [fst snd]. rewrite Hp1, Hp2.
    unfold initSource. simpl. rewrite E, Hd. repeat split.
  - destruct (main_generate o fs Hs Hd)
      as (src & fs2 & -> & _ & _ & _ & Hdd & Ha & _).
    rewrite generate_eq.
    destruct (processAll _ _ _ _) as [st [e0|]] eqn:Hloop;
      apply processAll_out in Hloop as (ev1 & Hout & Hev1);
      apply loop_events_not_source in Hev1 as [H1 H2];
      cbn [out startOf] in Hout; unfold eventsOf, fsOf;
      cbn [fst snd dataDir artDir];
      rewrite ?List.filter_app, Hout, !List.filter_app, H1, H2, Hp1, Hp2, Hp3,
        Hdd, Ha;
      cbn [List.filter isSourceWrite isMkdir app]; rewrite ?app_nil_r;
      repeat split.
Qed.

(** ** Pages *)

Lemma Contains_here x p q : Contains x (p ++ x ++ q).
Proof. exists p, q. reflexivity. Qed.

Lemma Contains_app_r x u w : Contains x w -> Contains x (u ++ w).
Proof.
  intros (a & b & ->). exists (u ++ a), b. rewrite <- app_assoc. reflexivity.
Qed.

Lemma Contains_between l1 l2 x p p' q q' rest :
  p = p' ++ l1 -> q = l2 ++ q' ->
  Contains (l1 ++ x ++ l2) (p ++ x ++ q ++ rest).
Proof.
  intros -> ->. exists p', (q' ++ rest).
  rewrite <- !app_assoc. reflexivity.
Qed.

Lemma Contains_trans x t w : Contains x t -> Contains t w -> Contains x w.
Proof.
  intros (a & b & ->) (c & d & ->). exists (c ++ a), (b ++ d).
  rewrite <- !app_assoc. reflexivity.
Qed.

(** The heading and the introduction stand in the page as they are. *)
Lemma articleHTML_contains year meta recipe :
  Contains (heading (meta_title meta)) (articleHTML year meta recipe) /\
  Contains (str "<p>" ++ intro recipe ++ str "</p>")
    (articleHTML year meta recipe).
Proof.
  unfold articleHTML, heading. split.
  - do 4 apply Contains_app_r.
    match goal with
    | |- Contains _ (?p ++ _ ++ ?q ++ ?rest) =>
        apply (Contains_between _ _ _ p
                 (firstn (length p - 4) p) q (skipn 5 q) rest)
    end; vm_compute; reflexivity.
  - do 14 apply Contains_app_r.
    match goal with
    | |- Contains _ (?p ++ _ ++ ?q ++ ?rest) =>
        apply (Contains_between _ _ _ p
                 (firstn (length p - 3) p) q (skipn 4 q) rest)
    end; vm_compute; reflexivity.
Qed.

(** X12.  [articleHTML] copies the title into the heading of the page,
    and the introduction into its first paragraph, as they are, whatever
    they hold: nothing is escaped, so every piece of text (markup as
    well) that stands in the title or in the introduction stands in the
    page. *)
Theorem articleHTML_heading_verbatim year meta recipe :
  Contains (str "<h1>" ++ meta_title meta ++ str "</h1>")
    (articleHTML year meta recipe) /\
  Contains (str "<p>" ++ intro recipe ++ str "</p>")
    (articleHTML year meta recipe) /\
  forall piece,
    Contains piece (meta_title meta) \/ Contains piece (intro recipe) ->
    Contains piece (articleHTML year meta recipe).
Proof.
  destruct (articleHTML_contains year meta recipe) as [Htitle Hintro].
  split; [exact Htitle|]. split; [exact Hintro|].
  intros piece [Hp | Hp].
  - apply (Contains_trans _ _ _ Hp).
    apply (Contains_trans _ (str "<h1>" ++ meta_title meta ++ str "</h1>"));
      [apply Contains_here | exact Htitle].
  - apply (Contains_trans _ _ _ Hp).
    apply (Contains_trans _ (str "<p>" ++ intro recipe ++ str "</p>"));
      [apply Contains_here | exact Hintro].
Qed.

(** *** The text of a file *)

Lemma list_pair_ind (P : list N -> Prop) :
  P [] -> (forall a, P [a]) ->
  (forall a b l, P l -> P (b :: l) -> P (a :: b :: l)) ->
  forall l, P l.
Proof.
  intros H0 H1 H2 l.
  enough (P l /\ forall a, P (a :: l)) by tauto.
  induction l as [|b l [IH1 IH2]]; [split; auto|].
  split; [apply IH2|]. intros a. apply H2; [exact IH1 | apply IH2].
Qed.

Lemma utf8Text_cons c s :
  utf8Text (c :: s) =
  if highSurrogate c then
    match s with
    | d :: s' =>
        if lowSurrogate d then c :: d :: utf8Text s'
        else 65533 :: utf8Text s
    | [] => [65533]
    end
  else if lowSurrogate c then 65533 :: utf8Text s
  else c :: utf8Text s.
Proof. reflexivity. Qed.

Lemma utf8Text_plain_cons c s :
  highSurrogate c = false -> lowSurrogate c = false ->
  utf8Text (c :: s) = c :: utf8Text s.
Proof. intros Hh Hl. rewrite utf8Text_cons, Hh, Hl. reflexivity. Qed.

(** Encoding goes piece by piece where the second piece does not start
    with the second half of a pair. *)
Lemma utf8Text_app x c y :
  lowSurrogate c = false ->
  utf8Text (x ++ c :: y) = utf8Text x ++ utf8Text (c :: y).
Proof.
  intros Hc. induction x as [|a|a b l IH1 IH2] using list_pair_ind.
  - reflexivity.
  - cbn [app]. rewrite (utf8Text_cons a (c :: y)), (utf8Text_cons a []), Hc.
    destruct (highSurrogate a); [reflexivity|].
    destruct (lowSurrogate a); reflexivity.
  - cbn [app] in *.
    rewrite (utf8Text_cons a (b :: l ++ c :: y)), (utf8Text_cons a (b :: l)).
    rewrite IH1, IH2.
    destruct (highSurrogate a); [destruct (lowSurrogate b)|
                                 destruct (lowSurrogate a)]; reflexivity.
Qed.

(** A text without surrogates is written as it is. *)
Lemma utf8Text_plain s :
  Forall (fun c => highSurrogate c || lowSurrogate c = false) s ->
  utf8Text s = s.
Proof.
  induction 1 as [|c s Hc _ IH]; [reflexivity|].
  apply orb_false_iff in Hc as [Hh Hl].
  rewrite (utf8Text_plain_cons _ _ Hh Hl), IH. reflexivity.
Qed.

(** The heading of a page, in the file. *)
Lemma utf8Text_heading a title b :
  utf8Text (a ++ heading title ++ b)
  = utf8Text a ++ heading (utf8Text title) ++ utf8Text b.
Proof.
  unfold heading. change (str "<h1>") with [60; 104; 49; 62].
  change (str "</h1>") with [60; 47; 104; 49; 62].
  rewrite <- !app_assoc. cbn [app].
  rewrite (utf8Text_app a 60) by reflexivity. f_equal.
  rewrite !utf8Text_plain_cons by reflexivity. do 4 f_equal.
  rewrite (utf8Text_app title 60) by reflexivity. reflexivity.
Qed.

Lemma page_heading year meta recipe :
  Contains (heading (utf8Text (meta_title meta)))
    (utf8Text (articleHTML year meta recipe)).
Proof.
  destruct (articleHTML_contains year meta recipe) as [(a & b & ->) _].
  rewrite utf8Text_heading. apply Contains_here.
Qed.

Lemma fileName_inj s s' : fileName s = fileName s' -> s = s'.
Proof. unfold fileName. apply app_inv_tail. Qed.

Lemma PageFor_insert r files f html :
  f <> fileName (rec_slug r) -> PageFor r files ->
  PageFor r (<[f := html]> files).
Proof.
  intros Hne (h & Hh & Hc). exists h. split; [|exact Hc].
  rewrite lookup_insert_ne by exact Hne. exact Hh.
Qed.

(** The invariant of a list is the invariant of its beginning. *)
Lemma StoreInv_prefix l l' files : StoreInv (l ++ l') files -> StoreInv l files.
Proof.
  intros (rs & Hl & Hnd & Hall). symmetry in Hl.
  apply map_eq_app in Hl as (rs1 & rs2 & -> & H1 & _).
  exists rs1. split; [symmetry; exact H1|].
  rewrite map_app in Hnd. apply NoDup_app in Hnd as (Hnd & _).
  apply Forall_app in Hall as [Hall _]. split; assumption.
Qed.

Lemma processItem_StoreInv o dom c t st st' r :
  StoreInv (articlesList st) (artFiles st) ->
  processItem o dom c t st = (st', r) ->
  StoreInv (articlesList st') (artFiles st').
Proof.
  intros Hinv. turn t st; intros [= <- <-]; simpl; try exact Hinv.
  destruct Hinv as (rs & Hl & Hnd & Hall).
  rewrite Hl in E. apply findSlug_records_None in E.
  eexists (rs ++ [_]). split; [|split].
  - rewrite map_app, Hl. reflexivity.
  - rewrite map_app. simpl. apply NoDup_app.
    split; [exact Hnd|]. split; [|apply NoDup_singleton].
    intros x Hx ->%list_elem_of_singleton. apply E, list_elem_of_In, Hx.
  - apply Forall_app. split.
    + apply List.Forall_forall. intros r Hr.
      rewrite List.Forall_forall in Hall. destruct (Hall r Hr) as [Hg Hp].
      split; [exact Hg|]. apply PageFor_insert; [|exact Hp].
      intros Heq. apply fileName_inj in Heq. apply E.
      rewrite Heq. apply in_map, Hr.
    + constructor; [|constructor]. split; [apply recordOf_generated|].
      eexists. split; [apply lookup_insert_eq|].
      apply page_heading.
Qed.

Lemma processAll_StoreInv o dom its st st' r :
  StoreInv (articlesList st) (artFiles st) ->
  processAll o dom its st = (st', r) ->
  StoreInv (articlesList st') (artFiles st').
Proof.
  unfold processAll.
  apply (forOf_invariant _ (fun s => StoreInv (articlesList s) (artFiles s))).
  intros [c t] s s' r' Hs. apply processItem_StoreInv, Hs.
Qed.

Lemma generate_StoreInv o src fs ev :
  StoreInv (loadExistingIndex (outJson fs)) (articles fs) ->
  StoreInv (loadExistingIndex (outJson (fsOf (generate o src fs ev))))
    (articles (fsOf (generate o src fs ev))).
Proof.
  intros Hinv. rewrite generate_eq.
  destruct (processAll _ _ _ _) as [st [e|]] eqn:Hloop.
  - pose proof (processAll_StoreInv _ _ _ (startOf fs ev) _ _ Hinv Hloop)
      as Hst.
    apply processAll_grows in Hloop as [l Hl]. rewrite Hl in Hst.
    apply StoreInv_prefix in Hst. exact Hst.
  - exact (processAll_StoreInv _ _ _ (startOf fs ev) _ _ Hinv Hloop).
Qed.

Lemma main_StoreInv o fs :
  StoreInv (loadExistingIndex (outJson fs)) (articles fs) ->
  StoreInv (loadExistingIndex (outJson (fsOf (main o fs))))
    (articles (fsOf (main o fs))).
Proof.
  intros Hinv. destruct (source_cases fs) as [[text E]|[[E Hd]|[Hs Hd]]].
  - rewrite (main_malformed o fs text E). exact Hinv.
  - rewrite (main_no_directory o fs E Hd). exact Hinv.
  - destruct (main_generate o fs Hs Hd) as (src & fs2 & -> & _ & Hj & Ha & _).
    apply generate_StoreInv. rewrite Hj, Ha. exact Hinv.
Qed.

Lemma reachable_StoreInv fs :
  Reachable fs -> StoreInv (loadExistingIndex (outJson fs)) (articles fs).
Proof.
  induction 1 as [fs H|o fs x fs' ev _ IH Hrun|c fs _ IH].
  - rewrite H. exists []. repeat split; constructor.
  - pose proof (main_StoreInv o fs IH) as H. rewrite Hrun in H. exact H.
  - exact IH.
Qed.

(** X1.  In every file system the script has built, each record of the
    index has its page in the articles directory, under the name
    [<slug>.html] that the record's path names, and the heading of that
    page is the record's title as the file holds it: with U+FFFD for a
    surrogate that is not half of a pair, so the title itself when it has
    no surrogate. *)
Theorem recorded_page_exists fs :
  Reachable fs ->
  exists rs,
    loadExistingIndex (outJson fs) = List.map recordJSON rs /\
    Forall (fun r =>
              rec_path r = str "articles/" ++ fileName (rec_slug r) /\
              exists html,
                articles fs !! fileName (rec_slug r) = Some html /\
                Contains (heading (utf8Text (rec_title r))) html /\
                (Forall (fun c => highSurrogate c || lowSurrogate c = false)
                   (rec_title r) ->
                 Contains (heading (rec_title r)) html)) rs.
Proof.
  intros Hreach.
  destruct (reachable_StoreInv fs Hreach) as (rs & Hl & _ & Hall).
  exists rs. split; [exact Hl|].
  eapply Forall_impl; [exact Hall|].
  intros r [(_ & _ & Hp) (html & Hf & Hc)]. split; [exact Hp|].
  exists html. split; [exact Hf|]. split; [exact Hc|].
  intros Hplain. rewrite (utf8Text_plain _ Hplain) in Hc. exact Hc.
Qed.

Lemma recorded_page_exists_witness :
  Reachable (fsOf (main sampleOracle (fsWith loneSurrogate))) /\
  loadExistingIndex (outJson (fsOf (main sampleOracle (fsWith loneSurrogate))))
  = [recordJSON
       (recordOf (metaOf (str "https://plateup.pro") (str "Lunch")
                    (str "Caf" ++ [55357] ++ str " Bowl") (str "caf-bowl")
                    1700000000000 1700000000001 (str "0.4fzyo82mvyr")))] /\
  exists rs,
    loadExistingIndex (outJson (fsOf (main sampleOracle (fsWith loneSurrogate))))
    = List.map recordJSON rs /\
    Forall (fun r =>
              rec_path r = str "articles/" ++ fileName (rec_slug r) /\
              exists html,
                articles (fsOf (main sampleOracle (fsWith loneSurrogate)))
                  !! fileName (rec_slug r) = Some html /\
                Contains (heading (utf8Text (rec_title r))) html /\
                (Forall (fun c => highSurrogate c || lowSurrogate c = false)
                   (rec_title r) ->
                 Contains (heading (rec_title r)) html)) rs.
Proof.
  assert (H0 : Reachable (fsOf (main sampleOracle (fsWith loneSurrogate)))).
  { eapply (reach_run sampleOracle (fsWith loneSurrogate)
              (exitOf (main sampleOracle (fsWith loneSurrogate)))
              _ (eventsOf (main sampleOracle (fsWith loneSurrogate)))).
    - apply reach_fresh. reflexivity.
    - vm_compute. reflexivity. }
  split; [exact H0|]. split; [vm_compute; reflexivity|].
  exact (recorded_page_exists _ H0).
Defined.

(** One turn leaves alone the file of a name that is not its own, and
    the file of a slug the list already has. *)
Lemma processItem_frame o dom c t st st' r name :
  Covered (slugify t) (articlesList st) \/ name <> fileName (slugify t) ->
  processItem o dom c t st = (st', r) ->
  artFiles st' !! name = artFiles st !! name.
Proof.
  intros H. turn t st; intros [= <- <-]; simpl; try reflexivity.
  destruct H as [[a Ha]|Hne]; [congruence|].
  apply lookup_insert_ne. unfold fileName in Hne. congruence.
Qed.

Lemma processAll_frame o dom its st st' r name :
  Forall (fun it => Covered (slugify it.2) (articlesList st) \/
                    name <> fileName (slugify it.2)) its ->
  processAll o dom its st = (st', r) ->
  artFiles st' !! name = artFiles st !! name.
Proof.
  intros Hall Hrun.
  enough (artFiles st' !! name = artFiles st !! name /\
          exists l, articlesList st' = articlesList st ++ l) by tauto.
  revert Hrun. unfold processAll.
  apply (forOf_invariant_In _
           (fun s => artFiles s !! name = artFiles st !! name /\
                     exists l, articlesList s = articlesList st ++ l)).
  - intros [c t] s s' r' Hin [Hf [l Hl]] Hs. simpl in Hs.
    rewrite List.Forall_forall in Hall. specialize (Hall _ Hin). simpl in Hall.
    split.
    + rewrite <- Hf. eapply processItem_frame; [|exact Hs].
      destruct Hall as [Hc|Hne]; [left|right; exact Hne].
      rewrite Hl. apply Covered_app, Hc.
    + apply processItem_grows in Hs as [l' Hl']. exists (l ++ l').
      rewrite Hl', Hl, app_assoc. reflexivity.
  - split; [reflexivity|]. exists []. symmetry. apply app_nil_r.
Qed.

Lemma processItem_keeps_files o dom c t st st' r name :
  processItem o dom c t st = (st', r) ->
  is_Some (artFiles st !! name) -> is_Some (artFiles st' !! name).
Proof.
  turn t st; intros [= <- <-]; simpl; try tauto.
  intros H. apply lookup_insert_is_Some'. right. exact H.
Qed.

Lemma processAll_keeps_files o dom its st st' r name :
  processAll o dom its st = (st', r) ->
  is_Some (artFiles st !! name) -> is_Some (artFiles st' !! name).
Proof.
  intros Hrun H. revert Hrun. unfold processAll.
  apply (forOf_invariant _ (fun s => is_Some (artFiles s !! name))); [|exact H].
  intros [c t] s s' r' Hs Hrun. eapply processItem_keeps_files; eassumption.
Qed.

(** X2.  A run only writes pages named after the slugs of configured
    titles that the index does not have yet: every other file of the
    articles directory is left as it was, and no file is ever removed. *)
Theorem run_leaves_other_files :
  (forall o fs src name,
     source fs = Some (Document src) ->
     Forall (fun it =>
               Covered (slugify it.2) (loadExistingIndex (outJson fs)) \/
               name <> fileName (slugify it.2)) (configItems src) ->
     articles (fsOf (main o fs)) !! name = articles fs !! name) /\
  (forall o fs name,
     is_Some (articles fs !! name) ->
     is_Some (articles (fsOf (main o fs)) !! name)).
Proof.
  split.
  - intros o fs src name Hs Hall.
    rewrite (main_document o fs src Hs), generate_eq.
    destruct (processAll _ _ _ _) as [st [e|]] eqn:Hloop;
      apply (processAll_frame _ _ _ _ _ _ name) in Hloop;
      try exact Hloop; exact Hall.
  - intros o fs name H.
    destruct (source_cases fs) as [[text E]|[[E Hd]|[Hs Hd]]].
    + rewrite (main_malformed o fs text E). exact H.
    + rewrite (main_no_directory o fs E Hd). exact H.
    + destruct (main_generate o fs Hs Hd) as (src & fs2 & -> & _ & _ & Ha & _).
      rewrite generate_eq.
      destruct (processAll _ _ _ _) as [st [e|]] eqn:Hloop;
        eapply processAll_keeps_files in Hloop; try exact Hloop;
        simpl; rewrite Ha; exact H.
Qed.

Lemma run_leaves_other_files_witness :
  source siteWithNotes = Some (Document tunaWrapAndSoup) /\
  articles siteWithNotes !! str "notes.txt" = Some (str "keep") /\
  articles siteWithNotes !! str "tuna-wrap.html" = Some (str "my page") /\
  Forall (fun it =>
            Covered (slugify it.2)
              (loadExistingIndex (outJson siteWithNotes)) \/
            str "notes.txt" <> fileName (slugify it.2))
    (configItems tunaWrapAndSoup) /\
  Forall (fun it =>
            Covered (slugify it.2)
              (loadExistingIndex (outJson siteWithNotes)) \/
            str "tuna-wrap.html" <> fileName (slugify it.2))
    (configItems tunaWrapAndSoup) /\
  writtenFiles (eventsOf (main sampleOracle siteWithNotes))
  = [str "leek-soup.html"] /\
  articles (fsOf (main sampleOracle siteWithNotes)) !! str "notes.txt"
  = articles siteWithNotes !! str "notes.txt" /\
  articles (fsOf (main sampleOracle siteWithNotes)) !! str "tuna-wrap.html"
  = articles siteWithNotes !! str "tuna-wrap.html" /\
  is_Some (articles (fsOf (main sampleOracle siteWithNotes))
             !! str "notes.txt").
Proof.
  assert (H0 : source siteWithNotes = Some (Document tunaWrapAndSoup))
    by reflexivity.
  assert (Ha : articles siteWithNotes !! str "notes.txt" = Some (str "keep"))
    by (vm_compute; reflexivity).
  assert (Hb : articles siteWithNotes !! str "tuna-wrap.html"
               = Some (str "my page"))
    by (vm_compute; reflexivity).
  assert (H1 : Forall (fun it =>
                 Covered (slugify it.2)
                   (loadExistingIndex (outJson siteWithNotes)) \/
                 str "notes.txt" <> fileName (slugify it.2))
                 (configItems tunaWrapAndSoup)).
  { constructor; [|constructor; [|constructor]];
      right; vm_compute; discriminate. }
  assert (H2 : Forall (fun it =>
                 Covered (slugify it.2)
                   (loadExistingIndex (outJson siteWithNotes)) \/
                 str "tuna-wrap.html" <> fileName (slugify it.2))
                 (configItems tunaWrapAndSoup)).
  { constructor; [|constructor; [|constructor]].
    - left. eexists. vm_compute. reflexivity.
    - right. vm_compute. discriminate. }
  split; [exact H0|]. split; [exact Ha|]. split; [exact Hb|].
  split; [exact H1|]. split; [exact H2|].
  split; [vm_compute; reflexivity|].
  split; [|split].
  - exact (proj1 run_leaves_other_files sampleOracle siteWithNotes
             tunaWrapAndSoup (str "notes.txt") H0 H1).
  - exact (proj1 run_leaves_other_files sampleOracle siteWithNotes
             tunaWrapAndSoup (str "tuna-wrap.html") H0 H2).
  - apply (proj2 run_leaves_other_files sampleOracle siteWithNotes).
    rewrite Ha. eexists. reflexivity.
Defined.

(** ** The configuration file and the directories *)

(** X5.  A run never rewrites a [source.json] that exists, whether it
    parses or not.  When the file is missing and its directory exists,
    the run writes the built-in configuration once, and that is what the
    file holds afterwards, however the run ends.  When the directory is
    missing too (the script makes only the output directories), the write
    throws [ENOENT]: the run ends there, and no file is written. *)
Theorem existing_source_is_kept :
  (forall o fs c,
     source fs = Some c ->
     source (fsOf (main o fs)) = Some c /\
     List.filter isSourceWrite (eventsOf (main o fs)) = []) /\
  (forall o fs,
     source fs = None -> sourceDir fs = true ->
     source (fsOf (main o fs)) = Some (Document defaultSrc) /\
     List.filter isSourceWrite (eventsOf (main o fs))
     = [WriteSource defaultSrc]) /\
  (forall o fs,
     source fs = None -> sourceDir fs = false ->
     exitOf (main o fs) = Uncaught ENOENT /\
     source (fsOf (main o fs)) = None /\
     outJson (fsOf (main o fs)) = outJson fs /\
     articles (fsOf (main o fs)) = articles fs /\
     Forall (fun e => isFileWrite e = false) (eventsOf (main o fs))).
Proof.
  split; [|split].
  - intros o fs c Hc.
    destruct (main_source_events o fs) as (Hw & _). rewrite Hw.
    split; [|unfold initSource; simpl; rewrite Hc; reflexivity].
    destruct c as [text|src].
    + rewrite (main_malformed o fs text Hc). exact Hc.
    + rewrite (main_document o fs src Hc), generate_eq.
      destruct (processAll _ _ _ _) as [st [e|]]; exact Hc.
  - intros o fs Hc Hd.
    destruct (main_source_events o fs) as (Hw & _). rewrite Hw.
    split; [|unfold initSource; simpl; rewrite Hc, Hd; reflexivity].
    rewrite (main_missing o fs Hc Hd), generate_eq.
    destruct (processAll _ _ _ _) as [st [e|]]; reflexivity.
  - intros o fs Hc Hd. rewrite (main_no_directory o fs Hc Hd).
    unfold exitOf, fsOf, eventsOf. cbn [fst snd].
    split; [reflexivity|]. split; [exact Hc|].
    split; [reflexivity|]. split; [reflexivity|].
    simpl. destruct (dataDir fs), (artDir fs); repeat constructor.
Qed.

Lemma existing_source_is_kept_witness :
  (source (fsWith tunaWrap) = Some (Document tunaWrap) /\
   source (fsOf (main sampleOracle (fsWith tunaWrap)))
   = Some (Document tunaWrap) /\
   List.filter isSourceWrite (eventsOf (main sampleOracle (fsWith tunaWrap)))
   = []) /\
  (source emptyFS = None /\ sourceDir emptyFS = true /\
   source (fsOf (main sampleOracle emptyFS)) = Some (Document defaultSrc) /\
   List.filter isSourceWrite (eventsOf (main sampleOracle emptyFS))
   = [WriteSource defaultSrc]) /\
  (source bareFS = None /\ sourceDir bareFS = false /\
   exitOf (main sampleOracle bareFS) = Uncaught ENOENT /\
   source (fsOf (main sampleOracle bareFS)) = None /\
   outJson (fsOf (main sampleOracle bareFS)) = outJson bareFS /\
   articles (fsOf (main sampleOracle bareFS)) = articles bareFS /\
   Forall (fun e => isFileWrite e = false)
     (eventsOf (main sampleOracle bareFS))).
Proof.
  split; [|split].
  - split; [reflexivity|].
    apply (proj1 existing_source_is_kept sampleOracle (fsWith tunaWrap)).
    reflexivity.
  - split; [reflexivity|]. split; [reflexivity|].
    apply (proj1 (proj2 existing_source_is_kept) sampleOracle emptyFS);
      reflexivity.
  - split; [reflexivity|]. split; [reflexivity|].
    apply (proj2 (proj2 existing_source_is_kept) sampleOracle bareFS);
      reflexivity.
Defined.

(** X11.  However a run ends, both output directories exist afterwards,
    and a directory is made exactly when it was missing: the directory of
    the index first, then the articles directory. *)
Theorem output_directories_ensured o fs :
  dataDir (fsOf (main o fs)) = true /\
  artDir (fsOf (main o fs)) = true /\
  List.filter isMkdir (eventsOf (main o fs))
  = (if existsDir DataDir fs then [] else [Mkdir DataDir])
    ++ (if existsDir ArticlesDir fs then [] else [Mkdir ArticlesDir]).
Proof.
  destruct (main_source_events o fs) as (_ & Hm & Hd & Ha).
  rewrite Hm. repeat split; assumption.
Qed.

(** ** What a run records *)

(** X7.  After a run that completes, the index has, for every title of
    the configuration, an entry with the slug of that title. *)
Theorem every_title_is_recorded o fs src fs' ev :
  source fs = Some (Document src) ->
  main o fs = (Completed, fs', ev) ->
  Forall (fun it => Covered (slugify it.2) (loadExistingIndex (outJson fs')))
    (configItems src).
Proof.
  intros Hs Hrun.
  apply main_completed in Hrun as (src' & ev0 & st & Hsrc & Hloop & -> & _).
  assert (src' = src) as -> by (destruct Hsrc as [H|[H _]]; congruence).
  apply processAll_covers in Hloop. exact Hloop.
Qed.

Lemma every_title_is_recorded_witness :
  source (fsWith tunaTwice) = Some (Document tunaTwice) /\
  main sampleOracle (fsWith tunaTwice)
  = (Completed, fsOf (main sampleOracle (fsWith tunaTwice)),
     eventsOf (main sampleOracle (fsWith tunaTwice))) /\
  Forall (fun it =>
            Covered (slugify it.2)
              (loadExistingIndex
                 (outJson (fsOf (main sampleOracle (fsWith tunaTwice))))))
    (configItems tunaTwice).
Proof.
  assert (H0 : source (fsWith tunaTwice) = Some (Document tunaTwice))
    by reflexivity.
  assert (H1 : main sampleOracle (fsWith tunaTwice)
               = (Completed, fsOf (main sampleOracle (fsWith tunaTwice)),
                  eventsOf (main sampleOracle (fsWith tunaTwice))))
    by (vm_compute; reflexivity).
  split; [exact H0|]. split; [exact H1|].
  exact (every_title_is_recorded _ _ _ _ _ H0 H1).
Defined.

Lemma writtenFiles_app ev ev' :
  writtenFiles (ev ++ ev') = writtenFiles ev ++ writtenFiles ev'.
Proof. unfold writtenFiles. apply flat_map_app. Qed.

(** What the loops append and write, against the pairs they visit. *)
Lemma processAll_summary o dom its st st' r :
  processAll o dom its st = (st', r) ->
  exists rs,
    articlesList st' = articlesList st ++ List.map recordJSON rs /\
    List.map itemOf rs `sublist_of` its /\
    Forall (fun r => rec_slug r = slugify (rec_title r)) rs /\
    writtenFiles (out st')
    = writtenFiles (out st) ++ List.map (fun r => fileName (rec_slug r)) rs.
Proof.
  revert st. induction its as [|[c t] its IH]; intros st.
  - intros [= <- <-]. exists []. simpl. rewrite !app_nil_r.
    repeat split; constructor.
  - unfold processAll. rewrite forOf_cons. cbn [fst snd].
    unfold processItem at 1.
    destruct (findSlug (slugify t) (articlesList st)) as [[a|]|e] eqn:E;
      [ | destruct (nameFits (slugify t ++ str ".html")) eqn:Efit | ].
    + intros H. apply IH in H as (rs & Hl & Hsub & Hslug & Hw).
      exists rs. simpl in Hl, Hw. rewrite writtenFiles_app in Hw.
      simpl in Hw. rewrite app_nil_r in Hw.
      split; [exact Hl|]. split; [apply sublist_cons, Hsub|].
      split; assumption.
    + intros H. apply IH in H as (rs & Hl & Hsub & Hslug & Hw).
      eexists (_ :: rs). simpl in Hl, Hw. rewrite writtenFiles_app in Hw.
      simpl in Hw. split; [|split; [|split]].
      * rewrite Hl, <- app_assoc. reflexivity.
      * simpl. apply sublist_skip, Hsub.
      * constructor; [reflexivity | exact Hslug].
      * rewrite Hw, <- app_assoc. reflexivity.
    + intros [= <- <-]. exists []. simpl. rewrite !app_nil_r.
      repeat split; [apply sublist_nil_l | constructor].
    + intros [= <- <-]. exists []. simpl. rewrite !app_nil_r.
      repeat split; [apply sublist_nil_l | constructor].
Qed.

Lemma itemsOf_category cats it : In it (itemsOf cats) -> it.1 <> [].
Proof.
  unfold itemsOf. rewrite in_flat_map. intros (cat & _ & Hin).
  apply in_map_iff in Hin as (t & <- & _). simpl.
  destruct (default [] (name cat)); discriminate.
Qed.

(** X8.  The records a completed run appends are made for titles of the
    configuration, under their category (never empty: "General" stands
    for a missing or empty name), in the order the configuration lists
    them; the run writes one page per appended record, named after its
    slug, in the same order, and reports the length of the list it
    writes. *)
Theorem new_records_follow_source o fs src fs' ev :
  source fs = Some (Document src) ->
  main o fs = (Completed, fs', ev) ->
  exists rs,
    loadExistingIndex (outJson fs')
    = loadExistingIndex (outJson fs) ++ List.map recordJSON rs /\
    List.map itemOf rs `sublist_of` configItems src /\
    Forall (fun r => rec_category r <> []) rs /\
    Forall (fun r => rec_slug r = slugify (rec_title r)) rs /\
    writtenFiles ev = List.map (fun r => fileName (rec_slug r)) rs /\
    In (LogWroteJSON (length (loadExistingIndex (outJson fs')))) ev.
Proof.
  intros Hs Hrun. rewrite (main_document o fs src Hs), generate_eq in Hrun.
  destruct (processAll _ _ _ _) as [st [e|]] eqn:Hloop; [discriminate|].
  injection Hrun as <- <-.
  apply processAll_summary in Hloop as (rs & Hl & Hsub & Hslug & Hw).
  exists rs. split; [exact Hl|]. split; [exact Hsub|].
  split; [|split; [exact Hslug|split]].
  - apply List.Forall_forall. intros r Hr.
    apply (itemsOf_category (default [] (categories src)) (itemOf r)).
    apply list_elem_of_In. eapply elem_of_sublist; [|exact Hsub].
    apply list_elem_of_In, in_map, Hr.
  - rewrite writtenFiles_app, Hw. simpl. rewrite app_nil_r.
    destruct (dataDir fs), (artDir fs); reflexivity.
  - apply in_or_app. right. right. left. reflexivity.
Qed.

Lemma new_records_follow_source_witness :
  source (fsWith tunaTwice) = Some (Document tunaTwice) /\
  main sampleOracle (fsWith tunaTwice)
  = (Completed, fsOf (main sampleOracle (fsWith tunaTwice)),
     eventsOf (main sampleOracle (fsWith tunaTwice))) /\
  exists rs,
    loadExistingIndex (outJson (fsOf (main sampleOracle (fsWith tunaTwice))))
    = loadExistingIndex (outJson (fsWith tunaTwice))
      ++ List.map recordJSON rs /\
    List.map itemOf rs `sublist_of` configItems tunaTwice /\
    Forall (fun r => rec_category r <> []) rs /\
    Forall (fun r => rec_slug r = slugify (rec_title r)) rs /\
    writtenFiles (eventsOf (main sampleOracle (fsWith tunaTwice)))
    = List.map (fun r => fileName (rec_slug r)) rs /\
    In (LogWroteJSON
          (length (loadExistingIndex
                     (outJson (fsOf (main sampleOracle (fsWith tunaTwice)))))))
      (eventsOf (main sampleOracle (fsWith tunaTwice))).
Proof.
  assert (H0 : source (fsWith tunaTwice) = Some (Document tunaTwice))
    by reflexivity.
  assert (H1 : main sampleOracle (fsWith tunaTwice)
               = (Completed, fsOf (main sampleOracle (fsWith tunaTwice)),
                  eventsOf (main sampleOracle (fsWith tunaTwice))))
    by (vm_compute; reflexivity).
  split; [exact H0|]. split; [exact H1|].
  exact (new_records_follow_source _ _ _ _ _ H0 H1).
Defined.

(** X6.  After a completed run, a run with an edited configuration whose
    titles all have slugs of titles of the first one (another domain,
    other category names or order, titles dropped or written with other
    case or punctuation) writes no page and the same list: nothing that is
    recorded is regenerated or removed. *)
Theorem edited_configuration_regenerates_nothing o o' fs A A' fs1 ev1 :
  source fs = Some (Document A) ->
  main o fs = (Completed, fs1, ev1) ->
  Forall (fun it' =>
            exists it, In it (configItems A) /\ slugify it'.2 = slugify it.2)
    (configItems A') ->
  exists fs2 ev2,
    main o' (withSource (Some (Document A')) fs1) = (Completed, fs2, ev2) /\
    Forall (fun e => isArticleWrite e = false) ev2 /\
    articles fs2 = articles fs1 /\
    loadExistingIndex (outJson fs2) = loadExistingIndex (outJson fs1).
Proof.
  intros Hs Hrun Hsame.
  apply main_completed in Hrun as (src & ev0 & st & Hsrc & Hloop & -> & _).
  assert (src = A) as -> by (destruct Hsrc as [H|[H _]]; congruence).
  apply processAll_covers in Hloop.
  rewrite (main_finished_edited o o' A A' (sourceDir fs) st).
  destruct (generate_covered o' A' (finished o A' (sourceDir fs) st))
    as (ev & -> & Hev).
  - apply List.Forall_forall. intros it' Hit'.
    rewrite List.Forall_forall in Hsame, Hloop.
    destruct (Hsame it' Hit') as (it & Hit & ->). apply (Hloop it Hit).
  - eexists _, _. split; [reflexivity|]. repeat split. exact Hev.
Qed.

Lemma edited_configuration_regenerates_nothing_witness :
  source (fsWith tunaWrap) = Some (Document tunaWrap) /\
  main sampleOracle (fsWith tunaWrap)
  = (Completed, fsOf (main sampleOracle (fsWith tunaWrap)),
     eventsOf (main sampleOracle (fsWith tunaWrap))) /\
  Forall (fun it' =>
            exists it, In it (configItems tunaWrap) /\
                       slugify it'.2 = slugify it.2)
    (configItems tunaWrapRenamed) /\
  exists fs2 ev2,
    main sampleOracle
      (withSource (Some (Document tunaWrapRenamed))
         (fsOf (main sampleOracle (fsWith tunaWrap))))
    = (Completed, fs2, ev2) /\
    Forall (fun e => isArticleWrite e = false) ev2 /\
    articles fs2 = articles (fsOf (main sampleOracle (fsWith tunaWrap))) /\
    loadExistingIndex (outJson fs2)
    = loadExistingIndex (outJson (fsOf (main sampleOracle (fsWith tunaWrap)))).
Proof.
  assert (H0 : source (fsWith tunaWrap) = Some (Document tunaWrap))
    by reflexivity.
  assert (H1 : main sampleOracle (fsWith tunaWrap)
               = (Completed, fsOf (main sampleOracle (fsWith tunaWrap)),
                  eventsOf (main sampleOracle (fsWith tunaWrap))))
    by (vm_compute; reflexivity).
  assert (H2 : Forall (fun it' =>
                 exists it, In it (configItems tunaWrap) /\
                            slugify it'.2 = slugify it.2)
                 (configItems tunaWrapRenamed)).
  { repeat constructor. exists (str "Lunch", str "Tuna Wrap").
    split; [left; reflexivity | vm_compute; reflexivity]. }
  split; [exact H0|]. split; [exact H1|]. split; [exact H2|].
  exact (edited_configuration_regenerates_nothing _ _ _ _ _ _ _ H0 H1 H2).
Defined.

(** ** More on slugs *)

Lemma In_toLowerCase d t :
  In d (toLowerCase t) <-> exists c, In c t /\ In d (toLowerUnit c).
Proof.
  unfold toLowerCase. rewrite in_concat. split.
  - intros (l & Hl & Hd). apply in_map_iff in Hl as (c & <- & Hc). eauto.
  - intros (c & Hc & Hd). exists (toLowerUnit c). split; [|exact Hd].
    apply in_map, Hc.
Qed.

Lemma toLowerUnit_unmarked c d :
  leavesMark c = false -> In d (toLowerUnit c) ->
  kept asciiLetter asciiDigit d = true -> whiteSpace d = true.
Proof.
  intros Hc Hd Hk. destruct (whiteSpace d) eqn:Ew; [reflexivity|exfalso].
  unfold toLowerUnit, leavesMark, kept, asciiLetter, asciiDigit in *.
  repeat match type of Hd with
    | context [if ?b then _ else _] => destruct b eqn:?
    end;
  simpl in Hd; repeat (destruct Hd as [<-|Hd]; [units|]); destruct Hd.
Qed.

Lemma toLowerUnit_marked c :
  leavesMark c = true ->
  exists d, In d (toLowerUnit c) /\
            kept asciiLetter asciiDigit d = true /\ whiteSpace d = false.
Proof.
  intros Hc. unfold toLowerUnit, leavesMark, kept, asciiLetter, asciiDigit in *.
  repeat match goal with
    | |- context [if ?b then _ else _] => destruct b eqn:?
    end;
  eexists; (split; [left; reflexivity|]);
  (split; [|match goal with |- ?w = false => destruct w eqn:Ew; [exfalso|reflexivity] end]);
  units.
Qed.

Lemma dropWhile_all p s :
  Forall (fun c => p c = true) s -> dropWhile p s = [].
Proof. induction 1 as [|c s Hc _ IH]; simpl; [|rewrite Hc]; auto. Qed.

Lemma In_dropWhile p d s : In d s -> p d = false -> In d (dropWhile p s).
Proof.
  induction s as [|c s IH]; simpl; [tauto|].
  intros [->|H] Hd.
  - rewrite Hd. left. reflexivity.
  - destruct (p c); [apply IH; assumption | right; exact H].
Qed.

Lemma In_trim d s : In d s -> whiteSpace d = false -> In d (trim s).
Proof.
  intros H Hd. unfold trim, trimEnd, trimStart.
  apply in_rev. rewrite rev_involutive.
  apply In_dropWhile; [|exact Hd]. apply -> in_rev.
  apply In_dropWhile; assumption.
Qed.

Lemma In_collapseRuns p d s : In d s -> p d = false -> In d (collapseRuns p s).
Proof.
  induction s as [|c s IH]; [tauto|].
  intros Hin Hd. rewrite collapseRuns_cons. destruct Hin as [->|Hin].
  - rewrite Hd. left. reflexivity.
  - specialize (IH Hin Hd). destruct (p c); [|right; exact IH].
    destruct s as [|e s']; [destruct Hin|].
    destruct (p e); [exact IH | apply in_or_app; right; exact IH].
Qed.

Lemma collapseRuns_nonempty p s : s <> [] -> collapseRuns p s <> [].
Proof.
  induction s as [|c s IH]; [congruence|]. intros _.
  rewrite collapseRuns_cons. destruct (p c); [|discriminate].
  destruct s as [|e s']; [discriminate|].
  destruct (p e); [apply IH; discriminate | discriminate].
Qed.

(** X9.  The slug of a title is empty exactly when no code unit of the
    title is an ASCII letter, digit or underscore, a hyphen, or one of
    the letters U+0130 and U+212A: white space and everything else leave
    nothing. *)
Theorem slugify_empty_iff t :
  slugify t = [] <-> Forall (fun c => leavesMark c = false) t.
Proof.
  rewrite slugify_refines. unfold slugifySpec. split.
  - intros Hempty. apply List.Forall_forall. intros c Hc.
    destruct (leavesMark c) eqn:E; [exfalso|reflexivity].
    destruct (toLowerUnit_marked c E) as (d & Hd & Hk & Hw).
    apply (collapseRuns_nonempty hyphen) in Hempty; [exact Hempty|].
    assert (Hin : In d (collapseRuns whiteSpace
                          (trim (List.filter (kept asciiLetter asciiDigit)
                                   (toLowerCase t))))).
    { apply In_collapseRuns; [|exact Hw]. apply In_trim; [|exact Hw].
      apply filter_In. split; [|exact Hk].
      apply In_toLowerCase. eauto. }
    intros Heq. rewrite Heq in Hin. destruct Hin.
  - intros Hall.
    assert (Hws : Forall (fun d => whiteSpace d = true)
                    (List.filter (kept asciiLetter asciiDigit)
                       (toLowerCase t))).
    { apply List.Forall_forall. intros d Hd.
      apply filter_In in Hd as [Hd Hk].
      apply In_toLowerCase in Hd as (c & Hc & Hd).
      rewrite List.Forall_forall in Hall.
      eapply toLowerUnit_unmarked; [apply Hall, Hc | exact Hd | exact Hk]. }
    unfold trim, trimEnd, trimStart.
    rewrite (dropWhile_all _ _ Hws). reflexivity.
Qed.

(** X10.  The name of the page of a title, [<slug>.html], is a plain file
    name of the articles directory whatever the title holds: it has no
    slash, backslash or NUL, it ends in [.html], and it is neither [.]
    nor [..]. *)
Theorem page_name_is_plain t :
  Forall (fun c => c <> 47 /\ c <> 92 /\ c <> 0) (fileName (slugify t)) /\
  str ".html" `suffix_of` fileName (slugify t) /\
  fileName (slugify t) <> str "." /\
  fileName (slugify t) <> str "..".
Proof.
  unfold fileName. split; [|split; [|split]].
  - apply Forall_app. split.
    + eapply Forall_impl; [apply slugify_units|].
      intros c H. unfold slugUnit, asciiDigit in H.
      repeat split; intros ->; vm_compute in H; discriminate.
    + vm_compute. repeat constructor; discriminate.
  - exists (slugify t). reflexivity.
  - intros H. apply (f_equal (@length N)) in H. rewrite length_app in H.
    change (length (str ".html")) with 5%nat in H.
    change (length (str ".")) with 1%nat in H. lia.
  - intros H. apply (f_equal (@length N)) in H. rewrite length_app in H.
    change (length (str ".html")) with 5%nat in H.
    change (length (str "..")) with 2%nat in H. lia.
Qed.

(** ** Excerpts and identifiers *)

Lemma intro_length title :
  length (intro (buildRecipe title)) = (length title + 90)%nat.
Proof. simpl. rewrite length_app. reflexivity. Qed.

(** X13.  The excerpt of a record is the whole introduction exactly when
    the title has at most 50 code units; a longer title gives an excerpt
    of exactly 140 code units, and from 140 code units on the excerpt is
    the start of the title alone. *)
Theorem excerpt_by_title_length dom c t slug t0 t1 r :
  let excerpt := rec_excerpt (recordOf (metaOf dom c t slug t0 t1 r)) in
  ((length t <= 50)%nat <-> excerpt = intro (buildRecipe t)) /\
  ((50 < length t)%nat -> length excerpt = 140%nat) /\
  ((140 <= length t)%nat -> excerpt = firstn 140 t).
Proof.
  cbv zeta. cbn [rec_excerpt recordOf meta_excerpt metaOf].
  unfold slice. rewrite !skipn_O. cbn [Nat.sub].
  pose proof (intro_length t) as Hlen.
  split; [split|split].
  - intros H. apply firstn_all2. lia.
  - intros H. apply (f_equal (@length N)) in H.
    rewrite length_firstn, Hlen in H. lia.
  - intros H. rewrite length_firstn, Hlen. lia.
  - intros H. simpl intro. rewrite firstn_app.
    replace (140 - length t)%nat with 0%nat by lia.
    simpl. apply app_nil_r.
Qed.

(** Digits of [numberToString] *)

Lemma digitValue_digitChar d : digitValue (digitChar d) = d.
Proof.
  unfold digitValue, digitChar.
  destruct (d <? 10) eqn:E.
  - apply N.ltb_lt in E.
    replace (48 + d <? 58) with true by (symmetry; apply N.ltb_lt; lia). lia.
  - apply N.ltb_ge in E.
    replace (87 + d <? 58) with false by (symmetry; apply N.ltb_ge; lia). lia.
Qed.

Lemma digitChar_alnum d :
  d < 36 -> inRange 48 57 (digitChar d) || inRange 97 122 (digitChar d) = true.
Proof.
  intros H. unfold digitChar. destruct (d <? 10) eqn:E.
  - apply N.ltb_lt in E. units.
  - apply N.ltb_ge in E. units.
Qed.

Lemma digitsFrom_value radix fuel n acc :
  2 <= radix -> n < 2 ^ N.of_nat fuel ->
  List.fold_left (fun a c => a * radix + digitValue c)
    (digitsFrom fuel radix n acc) 0
  = List.fold_left (fun a c => a * radix + digitValue c) acc n.
Proof.
  intros Hr. revert n acc. induction fuel as [|k IH]; intros n acc Hn.
  - simpl in *. f_equal. lia.
  - cbn [digitsFrom]. destruct (n <? radix) eqn:E.
    + simpl. rewrite digitValue_digitChar. reflexivity.
    + apply N.ltb_ge in E. rewrite IH.
      * simpl. rewrite digitValue_digitChar. f_equal.
        rewrite N.mul_comm. symmetry. apply N.div_mod. lia.
      * rewrite Nat2N.inj_succ, N.pow_succ_r' in Hn.
        apply N.Div0.div_lt_upper_bound. nia.
Qed.

Lemma digitsFrom_alnum radix fuel n acc :
  2 <= radix <= 36 ->
  Forall (fun c => inRange 48 57 c || inRange 97 122 c = true) acc ->
  Forall (fun c => inRange 48 57 c || inRange 97 122 c = true)
    (digitsFrom fuel radix n acc).
Proof.
  intros Hr. revert n acc. induction fuel as [|k IH]; intros n acc Hacc.
  - exact Hacc.
  - cbn [digitsFrom]. destruct (n <? radix) eqn:E.
    + apply N.ltb_lt in E. constructor; [apply digitChar_alnum; lia|exact Hacc].
    + apply N.ltb_ge in E. apply IH. constructor; [|exact Hacc].
      apply digitChar_alnum.
      assert (n mod radix < radix) by (apply N.mod_lt; lia). lia.
Qed.

Lemma pos_lt_pow_size p : N.pos p < 2 ^ N.of_nat (Pos.size_nat p).
Proof.
  induction p as [p IH|p IH|]; cbn [Pos.size_nat];
    rewrite Nat2N.inj_succ, N.pow_succ_r'.
  - set (x := 2 ^ _) in *. lia.
  - set (x := 2 ^ _) in *. lia.
  - simpl. lia.
Qed.

(** X14.  The identifier of a record is the clock reading in base 36
    followed by at most four code units of the random text; the base-36
    part is written with the digits [0-9a-z] and reads back as the clock
    reading. *)
Theorem record_id_shape dom c t slug t0 t1 r :
  (0 <= t0)%Z ->
  rec_id (recordOf (metaOf dom c t slug t0 t1 r))
  = numberToString 36 t0 ++ slice 2 6 r /\
  (length (slice 2 6 r) <= 4)%nat /\
  digitsValue 36 (numberToString 36 t0) = Z.to_N t0 /\
  Forall (fun c => inRange 48 57 c || inRange 97 122 c = true)
    (numberToString 36 t0).
Proof.
  intros Ht. split; [reflexivity|]. split.
  - unfold slice. rewrite length_firstn. lia.
  - unfold digitsValue, numberToString. destruct t0 as [|p|p]; [| |lia].
    + split; [reflexivity | repeat constructor].
    + split.
      * rewrite digitsFrom_value; [reflexivity | lia | apply pos_lt_pow_size].
      * apply digitsFrom_alnum; [lia | constructor].
Qed.

Lemma record_id_shape_witness :
  (0 <= 1700000000012)%Z /\
  rec_id (recordOf (metaOf [] (str "Lunch") (str "Tuna Wrap")
                      (str "tuna-wrap") 1700000000012 1700000000013
                      (str "0.4fzyo82mvyr")))
  = numberToString 36 1700000000012 ++ slice 2 6 (str "0.4fzyo82mvyr") /\
  (length (slice 2 6 (str "0.4fzyo82mvyr")) <= 4)%nat /\
  digitsValue 36 (numberToString 36 1700000000012)
  = Z.to_N 1700000000012 /\
  Forall (fun c => inRange 48 57 c || inRange 97 122 c = true)
    (numberToString 36 1700000000012).
Proof.
  split; [lia|].
  apply (record_id_shape [] (str "Lunch") (str "Tuna Wrap") (str "tuna-wrap")
           1700000000012 1700000000013 (str "0.4fzyo82mvyr")).
  lia.
Defined.

(** ** The page of a record, and the items of a run *)

Lemma excerpt_not_empty dom c t slug t0 t1 r :
  meta_excerpt (metaOf dom c t slug t0 t1 r) <> [].
Proof. destruct t; discriminate. Qed.

Lemma canonical_path dom c t slug t0 t1 r :
  meta_canonical (metaOf dom c t slug t0 t1 r)
  = dom ++ str "/" ++ rec_path (recordOf (metaOf dom c t slug t0 t1 r)).
Proof. destruct dom; reflexivity. Qed.

(** X15.  In the page the loop body makes for a title, the description
    is the excerpt of the record (never the title: the excerpt is not
    empty), the picture is the logo, and the canonical address is the
    domain, a slash and the path of the record. *)
Theorem generated_page_fields year dom c t slug t0 t1 r :
  meta_excerpt (metaOf dom c t slug t0 t1 r)
  = rec_excerpt (recordOf (metaOf dom c t slug t0 t1 r)) /\
  Contains
    (tpl "<meta name=^description^ content=^"
     ++ rec_excerpt (recordOf (metaOf dom c t slug t0 t1 r)) ++ tpl "^>")
    (articleHTML year (metaOf dom c t slug t0 t1 r) (buildRecipe t)) /\
  Contains
    (tpl "<img src=^../images/logo.png^ alt=^" ++ t ++ tpl "^ class=")
    (articleHTML year (metaOf dom c t slug t0 t1 r) (buildRecipe t)) /\
  Contains
    (str "Canonical: "
     ++ (dom ++ str "/"
         ++ rec_path (recordOf (metaOf dom c t slug t0 t1 r)))
     ++ str "</p>")
    (articleHTML year (metaOf dom c t slug t0 t1 r) (buildRecipe t)).
Proof.
  split; [reflexivity|].
  pose proof (excerpt_not_empty dom c t slug t0 t1 r) as Hne.
  pose proof (canonical_path dom c t slug t0 t1 r) as Hcan.
  unfold articleHTML. rewrite Hcan.
  change (rec_excerpt (recordOf (metaOf dom c t slug t0 t1 r)))
    with (meta_excerpt (metaOf dom c t slug t0 t1 r)).
  assert (He : orElse (meta_excerpt (metaOf dom c t slug t0 t1 r))
                 (meta_title (metaOf dom c t slug t0 t1 r))
               = meta_excerpt (metaOf dom c t slug t0 t1 r)).
  { destruct (meta_excerpt _); [contradiction|reflexivity]. }
  rewrite He. clear He.
  cbn [meta_title meta_thumb metaOf orElse].
  split; [|split].
  - do 2 apply Contains_app_r.
    match goal with
    | |- Contains _ (?p ++ _ ++ ?q ++ ?rest) =>
        apply (Contains_between _ _ _ p
                 (firstn (length p - 34) p) q (skipn 2 q) rest)
    end; vm_compute; reflexivity.
  - do 10 apply Contains_app_r.
    rewrite (app_assoc (tpl _) (str "../images/logo.png")).
    rewrite (app_assoc _ (tpl "^ alt=^")).
    match goal with
    | |- Contains _ (?p ++ _ ++ ?q ++ ?rest) =>
        apply (Contains_between _ _ _ p
                 (firstn (length p - 35) p) q (skipn 8 q) rest)
    end; vm_compute; reflexivity.
  - do 20 apply Contains_app_r.
    assert (Ho : orElse (dom ++ str "/"
                   ++ rec_path (recordOf (metaOf dom c t slug t0 t1 r)))
                   (str "")
                 = dom ++ str "/"
                   ++ rec_path (recordOf (metaOf dom c t slug t0 t1 r))).
    { destruct dom; reflexivity. }
    rewrite Ho.
    match goal with
    | |- Contains _ (?p ++ _ ++ ?q ++ ?rest) =>
        apply (Contains_between _ _ _ p
                 (firstn (length p - 11) p) q (skipn 4 q) rest)
    end; vm_compute; reflexivity.
Qed.

(** Every pair the loops visit is skipped with a notice or gets a page. *)
Lemma processAll_accounts o dom its st st' :
  processAll o dom its st = (st', None) ->
  (length (List.filter isSkipNotice (out st'))
   + length (writtenFiles (out st')))%nat
  = (length (List.filter isSkipNotice (out st))
     + length (writtenFiles (out st)) + length its)%nat.
Proof.
  revert st. induction its as [|[c t] its IH]; intros st.
  - intros [= <-]. simpl. lia.
  - unfold processAll. rewrite forOf_cons. cbn [fst snd].
    unfold processItem at 1.
    destruct (findSlug (slugify t) (articlesList st)) as [[a|]|e];
      [ | destruct (nameFits (slugify t ++ str ".html")) | ];
      try discriminate; intros H; apply IH in H; simpl in H;
      rewrite List.filter_app, writtenFiles_app, !length_app in H;
      simpl in H; simpl; lia.
Qed.

(** X16.  In a run that completes, every item of the configuration is
    either skipped with a notice or gets a page written: the notices and
    the pages together are as many as the items. *)
Theorem every_item_skipped_or_written o fs src fs' ev :
  source fs = Some (Document src) ->
  main o fs = (Completed, fs', ev) ->
  (length (List.filter isSkipNotice ev) + length (writtenFiles ev))%nat
  = length (configItems src).
Proof.
  intros Hs Hrun. rewrite (main_document o fs src Hs), generate_eq in Hrun.
  destruct (processAll _ _ _ _) as [st [e|]] eqn:Hloop; [discriminate|].
  injection Hrun as <- <-.
  apply processAll_accounts in Hloop. simpl in Hloop.
  rewrite List.filter_app, writtenFiles_app, !length_app. simpl.
  assert (Hpre : length (List.filter isSkipNotice
                   ((if dataDir fs then [] else [Mkdir DataDir])
                    ++ (if artDir fs then [] else [Mkdir ArticlesDir]))) = 0%nat
                 /\ length (writtenFiles
                   ((if dataDir fs then [] else [Mkdir DataDir])
                    ++ (if artDir fs then [] else [Mkdir ArticlesDir]))) = 0%nat).
  { destruct (dataDir fs), (artDir fs); split; reflexivity. }
  destruct Hpre as [Hp1 Hp2]. rewrite Hp1, Hp2 in Hloop. lia.
Qed.

Lemma every_item_skipped_or_written_witness :
  source (fsWith tunaTwice) = Some (Document tunaTwice) /\
  main sampleOracle (fsWith tunaTwice)
  = (Completed, fsOf (main sampleOracle (fsWith tunaTwice)),
     eventsOf (main sampleOracle (fsWith tunaTwice))) /\
  (length (List.filter isSkipNotice
             (eventsOf (main sampleOracle (fsWith tunaTwice))))
   + length (writtenFiles (eventsOf (main sampleOracle (fsWith tunaTwice)))))%nat
  = length (configItems tunaTwice).
Proof.
  assert (H0 : source (fsWith tunaTwice) = Some (Document tunaTwice))
    by reflexivity.
  assert (H1 : main sampleOracle (fsWith tunaTwice)
               = (Completed, fsOf (main sampleOracle (fsWith tunaTwice)),
                  eventsOf (main sampleOracle (fsWith tunaTwice))))
    by (vm_compute; reflexivity).
  split; [exact H0|]. split; [exact H1|].
  exact (every_item_skipped_or_written _ _ _ _ _ H0 H1).
Defined.

Lemma findSlug_records_notin s rs :
  ~ In s (List.map rec_slug rs) ->
  findSlug s (List.map recordJSON rs) = Ok None.
Proof.
  intros Hnot. rewrite findSlug_records.
  destruct (List.find _ rs) as [r|] eqn:E; [|reflexivity].
  apply find_some in E as [Hr Hs]. apply bool_decide_eq_true in Hs.
  exfalso. apply Hnot. rewrite <- Hs. apply in_map, Hr.
Qed.

(** X17.  Among the titles of the configuration with one slug, the first
    in order is the one recorded: when the index does not have the slug
    and no earlier title has it, a completed run lists a record with this
    title and its category. *)
Theorem first_title_of_a_slug_wins o fs src fs' ev l1 c t l2 :
  source fs = Some (Document src) ->
  main o fs = (Completed, fs', ev) ->
  configItems src = l1 ++ (c, t) :: l2 ->
  Forall (fun it => slugify it.2 <> slugify t) l1 ->
  findSlug (slugify t) (loadExistingIndex (outJson fs)) = Ok None ->
  exists r,
    In (recordJSON r) (loadExistingIndex (outJson fs')) /\
    rec_title r = t /\ rec_category r = c /\ rec_slug r = slugify t.
Proof.
  intros Hs Hrun Hitems Hfirst Hnone.
  rewrite (main_document o fs src Hs), generate_eq, Hitems in Hrun.
  destruct (processAll _ _ _ _) as [st [e|]] eqn:Hloop; [discriminate|].
  injection Hrun as <- <-. cbn [outJson].
  rewrite loadExistingIndex_indexDoc.
  unfold processAll in Hloop. rewrite forOf_app in Hloop.
  destruct (forOf _ l1 _) as [s1 [e|]] eqn:H1; [discriminate|].
  rewrite forOf_cons in Hloop. cbn [fst snd] in Hloop.
  apply (processAll_summary o _ l1) in H1 as (rs1 & Hl1 & Hsub & Hslug & _).
  cbn [articlesList startOf outJson ensureDirs ensureDir fst snd] in Hl1.
  assert (Hnone1 : findSlug (slugify t) (articlesList s1) = Ok None).
  { rewrite Hl1, (findSlug_app_none _ _ _ Hnone).
    apply findSlug_records_notin. intros Hin.
    apply in_map_iff in Hin as (r & Hr & Hin).
    rewrite List.Forall_forall in Hslug, Hfirst.
    apply (Hfirst (itemOf r)).
    - apply list_elem_of_In. eapply elem_of_sublist; [|exact Hsub].
      apply list_elem_of_In, in_map, Hin.
    - simpl. rewrite <- (Hslug r Hin). exact Hr. }
  destruct (nameFits (slugify t ++ str ".html")) eqn:Hfit;
    [|rewrite (processItem_long _ _ _ _ _ Hnone1 Hfit) in Hloop;
      discriminate].
  rewrite (processItem_new _ _ _ _ _ Hnone1 Hfit) in Hloop.
  cbv zeta in Hloop.
  apply (processAll_grows o _ l2) in Hloop as [l Hl]. cbn [articlesList] in Hl.
  eexists. split.
  - rewrite Hl. apply in_or_app. left. apply in_or_app. right. left.
    reflexivity.
  - repeat split.
Qed.

Lemma first_title_of_a_slug_wins_witness :
  source (fsWith tunaWrapAndSoup) = Some (Document tunaWrapAndSoup) /\
  main sampleOracle (fsWith tunaWrapAndSoup)
  = (Completed, fsOf (main sampleOracle (fsWith tunaWrapAndSoup)),
     eventsOf (main sampleOracle (fsWith tunaWrapAndSoup))) /\
  configItems tunaWrapAndSoup
  = [(str "Lunch", str "Tuna Wrap")] ++ (str "Lunch", str "Leek Soup") :: [] /\
  Forall (fun it => slugify it.2 <> slugify (str "Leek Soup"))
    [(str "Lunch", str "Tuna Wrap")] /\
  findSlug (slugify (str "Leek Soup"))
    (loadExistingIndex (outJson (fsWith tunaWrapAndSoup))) = Ok None /\
  exists r,
    In (recordJSON r)
      (loadExistingIndex
         (outJson (fsOf (main sampleOracle (fsWith tunaWrapAndSoup))))) /\
    rec_title r = str "Leek Soup" /\ rec_category r = str "Lunch" /\
    rec_slug r = slugify (str "Leek Soup").
Proof.
  assert (H0 : source (fsWith tunaWrapAndSoup)
               = Some (Document tunaWrapAndSoup)) by reflexivity.
  assert (H1 : main sampleOracle (fsWith tunaWrapAndSoup)
               = (Completed, fsOf (main sampleOracle (fsWith tunaWrapAndSoup)),
                  eventsOf (main sampleOracle (fsWith tunaWrapAndSoup))))
    by (vm_compute; reflexivity).
  assert (H2 : configItems tunaWrapAndSoup
               = [(str "Lunch", str "Tuna Wrap")]
                 ++ (str "Lunch", str "Leek Soup") :: []) by reflexivity.
  assert (H3 : Forall (fun it => slugify it.2 <> slugify (str "Leek Soup"))
                 [(str "Lunch", str "Tuna Wrap")]).
  { constructor; [|constructor]. vm_compute. discriminate. }
  assert (H4 : findSlug (slugify (str "Leek Soup"))
                 (loadExistingIndex (outJson (fsWith tunaWrapAndSoup)))
               = Ok None) by reflexivity.
  repeat (split; [assumption|]).
  exact (first_title_of_a_slug_wins _ _ _ _ _ _ _ _ _ H0 H1 H2 H3 H4).
Defined.
